(** * The containerd image-service adapter of the daemon

    A shallow embedding of [daemon/containerd/image.go],
    [daemon/containerd/image_changes.go] and
    [daemon/containerd/image_exporter.go].

    The content engine, the snapshotter, the reference parser and the
    platform matchers are external collaborators: they appear as fields
    of records of responses ([Engine], [Archiver], [Snapshotter], ...), and every
    theorem quantifies over them.  Go's [(value, error)] returns are
    kept as pairs with an [option error]; a run-time panic is a separate
    outcome. *)

From Stdlib Require Import String Ascii List ListSet Bool Arith Lia.
Import ListNotations.
Local Open Scope string_scope.
Local Open Scope list_scope.
Local Open Scope nat_scope.

(** ** Errors *)

(** Go error values, as far as the adapter builds and inspects them. *)
Inductive error : Type :=
| ErrNew (msg : string)                    (* errors.New, errors.Errorf *)
| ErrNotFound                              (* cerrdefs.ErrNotFound *)
| ErrWrap (msg : string) (cause : error)   (* errors.Wrap(cause, msg), fmt.Errorf("%s: %w", msg, cause) *)
| NotFound (cause : error)                 (* errdefs.NotFound(cause) *)
| InvalidParameter (cause : error).        (* errdefs.InvalidParameter(cause) *)

(** [err.Error()] *)
Fixpoint Error (e : error) : string :=
  match e with
  | ErrNew msg => msg
  | ErrNotFound => "not found"
  | ErrWrap msg cause => (msg ++ ": " ++ Error cause)%string
  | NotFound cause => Error cause
  | InvalidParameter cause => Error cause
  end.

(** [cerrdefs.IsNotFound(err)]: the containerd sentinel is somewhere on
    the unwrap chain; [nil] is not a not-found error. *)
Fixpoint isNotFoundErr (e : error) : bool :=
  match e with
  | ErrNew _ => false
  | ErrNotFound => true
  | ErrWrap _ cause => isNotFoundErr cause
  | NotFound cause => isNotFoundErr cause
  | InvalidParameter cause => isNotFoundErr cause
  end.

Definition IsNotFound (err : option error) : bool :=
  match err with
  | None => false
  | Some e => isNotFoundErr e
  end.

(** [errors.Is(e, target)] for the error values above: [target] is [e]
    or one of its causes. *)
Inductive wraps : error -> error -> Prop :=
| wraps_refl e : wraps e e
| wraps_ErrWrap msg e t : wraps e t -> wraps (ErrWrap msg e) t
| wraps_NotFound e t : wraps e t -> wraps (NotFound e) t
| wraps_InvalidParameter e t : wraps e t -> wraps (InvalidParameter e) t.

(** The result of an engine call that returns [(T, error)] and whose
    value is not looked at when the error is set. *)
Inductive result (A : Type) : Type :=
| Ok (a : A)
| Err (e : error).
Arguments Ok {A} a.
Arguments Err {A} e.

(** ** Data model *)

Definition Digest := string.

Record Platform : Type := mkPlatform {
  OS : string;
  Architecture : string;
  Variant : string
}.

Record Descriptor : Type := mkDescriptor {
  MediaType : string;
  DescDigest : Digest;
  DescPlatform : option Platform      (* *ocispec.Platform, nil when absent *)
}.

(** [containerdimages.Image], without the labels and time stamps. *)
Record Image : Type := mkImage {
  Name : string;
  Target : Descriptor
}.

(** [containerdimages.Image{}] *)
Definition emptyImage : Image := mkImage "" (mkDescriptor "" "" None).

(** What [reference.ParseAnyReference] can hand back: a reference that
    is [reference.Digested], or one that is only [reference.Named]
    (given by its [String()] form). *)
Inductive Reference : Type :=
| RefDigested (d : Digest)
| RefNamed (name : string).

(** The filters the adapter passes to [ImageService.List]. *)
Inductive Filter : Type :=
| FTargetDigestEq (d : Digest)                    (* target.digest==d *)
| FNameEq (name : string)                         (* name=="name" *)
| FTargetDigestRe (prefix : string) (rest : nat). (* target.digest~=/sha256:prefix[0-9a-fA-F]{rest}/ *)

(** The image store is the list of its records. *)
Definition Store := list Image.

(** The capabilities of the content engine and of the reference and
    platform packages that image resolution consumes.  The lookups are
    given the store they run against. *)
Record Engine : Type := mkEngine {
  ParseAnyReference : string -> result Reference;
  TagNameOnly : string -> string;               (* on the String() form *)
  ParseNamed : string -> result string;         (* reference.ParseNamed, String() of the result *)
  List : Store -> list Filter -> result (list Image);
  Get : Store -> string -> result Image;
  Platforms : Descriptor -> result (list Platform);
  Only : Platform -> Platform -> bool;          (* platforms.Only(p).Match(q) *)
  Format : Platform -> string;                  (* platforms.Format *)
  IsIndexType : string -> bool;
  IsManifestType : string -> bool;
  Children : Descriptor -> result (list Descriptor);
  ReaderAt : Descriptor -> option error         (* the error of store.ReaderAt *)
}.

(** ** Short identifiers *)

(** One character of the class [[a-f0-9]]. *)
Definition isLowerHex (c : ascii) : bool :=
  let n := nat_of_ascii c in
  ((48 <=? n) && (n <=? 57)) || ((97 <=? n) && (n <=? 102)).

Fixpoint allLowerHex (s : string) : bool :=
  match s with
  | EmptyString => true
  | String c rest => isLowerHex c && allLowerHex rest
  end.

(** [shortID.MatchString] for [shortID = ^([a-f0-9]{4,64})$]. *)
Definition shortID (s : string) : bool :=
  (4 <=? String.length s) && (String.length s <=? 64) && allLowerHex s.

(** ** RootFS-child relation *)

(** Modelled from the spec: the comparison loop of [isRootfsChildOf],
    whose body is not among the sources.  The child agrees with the
    parent on every index of the parent. *)
Fixpoint diffIDsAgree (child parent : list Digest) : bool :=
  match parent, child with
  | [], _ => true
  | p :: parent', c :: child' => String.eqb c p && diffIDsAgree child' parent'
  | _ :: _, [] => false
  end.

(** Modelled from the spec: [isRootfsChildOf] is called by
    [TestIsRootfsChildOf] and [FuzzIsRootfsChildOf] but its body is not
    among the sources.  The spec (4.8) makes it the total, linear
    predicate that holds iff the parent's diff-ID list is a strict
    prefix of the child's: the child is longer than the parent and
    agrees with it on every index of the parent. *)
Definition isRootfsChildOf (child parent : list Digest) : bool :=
  if length child <=? length parent then false
  else diffIDsAgree child parent.

(** [toRootfs] of the test file: one diff-ID per letter.  The digest of
    a letter stands for itself here ([digest.FromString] is injective on
    the letters used). *)
Fixpoint toRootfs (values : string) : list Digest :=
  match values with
  | EmptyString => []
  | String c rest => String c EmptyString :: toRootfs rest
  end.

(** ** Image resolution *)

Section Resolve.
Variable eng : Engine.
Variable store : Store.

(** The loop of [resolveImage] over more than one listed image:
    return at the first image named [ref], and collect the target
    digests seen on the way (the keys of the [digests] map). *)
Fixpoint scanImages (ref : string) (imgs : list Image) (digests : set Digest)
  : Image + set Digest :=
  match imgs with
  | [] => inr digests
  | img :: rest =>
      if String.eqb (Name img) ref then inl img
      else scanImages ref rest (set_add string_dec (DescDigest (Target img)) digests)
  end.

Definition resolveImage (refOrID : string) (platform : option Platform)
  : Image * option error :=
  match ParseAnyReference eng refOrID with
  | Err err => (emptyImage, Some (InvalidParameter err))
  | Ok (RefDigested d) =>
      match List eng store [FTargetDigestEq d] with
      | Err err => (emptyImage, Some (ErrWrap "failed to lookup digest" err))
      | Ok [] => (emptyImage, Some (NotFound (ErrNew "image not found with digest")))
      | Ok (img0 :: _) => (img0, None)
      end
  | Ok (RefNamed parsed) =>
      let namedRef := TagNameOnly eng parsed in
      if shortID refOrID then
        let ref := namedRef in
        let filters :=
          [FNameEq ref; FTargetDigestRe refOrID (64 - String.length refOrID)] in
        match List eng store filters with
        | Err err => (emptyImage, Some err)
        | Ok [] => (emptyImage, Some (NotFound (ErrNew "list returned no images")))
        | Ok (img0 :: others) =>
            let imgs := img0 :: others in
            if 1 <? length imgs then
              match scanImages ref imgs (empty_set Digest) with
              | inl img => (img, None)
              | inr digests =>
                  if 1 <? length digests
                  then (emptyImage, Some (NotFound (ErrNew "ambiguous reference")))
                  else (img0, None)
              end
            else (img0, None)
        end
      else
        match Get eng store namedRef with
        | Err err =>
            if negb (isNotFoundErr err) then (emptyImage, Some err)
            else (emptyImage, Some (NotFound (ErrNew "id not found")))
        | Ok img =>
            match platform with
            | Some p =>
                match Platforms eng (Target img) with
                | Err err => (img, Some err)
                | Ok imgPlatforms =>
                    if existsb (Only eng p) imgPlatforms then (img, None)
                    else (img, Some (NotFound (ErrNew
                           ("platform " ++ Format eng p ++ " not supported")%string)))
                end
            | None => (img, None)
            end
        end
  end.
End Resolve.

(** ** Outcomes and the state monad of the adapter's stateful code *)

(** A Go call either returns or panics (a nil dereference here). *)
Inductive outcome (A : Type) : Type :=
| Returned (a : A)
| Panicked.
Arguments Returned {A} a.
Arguments Panicked {A}.

(** Stateful code over a state [S]: the state is threaded, and a panic
    stops what follows but keeps the state reached. *)
Definition M (S A : Type) : Type := S -> outcome A * S.

Definition ret {S A : Type} (a : A) : M S A := fun s => (Returned a, s).

Definition panic {S A : Type} : M S A := fun s => (Panicked, s).

Definition bind {S A B : Type} (m : M S A) (k : A -> M S B) : M S B :=
  fun s =>
    match m s with
    | (Returned a, s') => k a s'
    | (Panicked, s') => (Panicked, s')
    end.

Notation "x <- m ;; k" := (bind m (fun x => k))
  (at level 61, m at next level, right associativity).
Notation "' pat <- m ;; k" := (bind m (fun x => match x with pat => k end))
  (at level 61, pat pattern, m at next level, right associativity).

(** ** Export planning *)

(** The [archive.ExportOpt] values [ExportImage] builds. *)
Inductive ExportOpt : Type :=
| WithSkipNonDistributableBlobs
| WithPlatform_allPlatformsWithPreference     (* of platforms.Default() *)
| WithImage (name : string)                    (* archive.WithImage(is, name) *)
| WithManifest (target : Descriptor) (name : string).

(** The calls that change or read the engine during an export. *)
Inductive Event : Type :=
| EvConvert (dst src : string) (present : list Platform) (res : option Image)
| EvExport (opts : list ExportOpt)
| EvDelete (name : string).

(** The engine side of one export: the image store, the calls made so
    far, and how many UUIDs were drawn. *)
Record World : Type := mkWorld {
  images : Store;
  events : list Event;
  drawn : nat
}.

(** What [converter.Convert] comes back with: the target of the derived
    image, or an error together with the image pointer returned next to
    it (which need not be nil). *)
Inductive Converted : Type :=
| ConvTarget (target : Descriptor)
| ConvFailed (partial : option Image) (e : error).

(** The capabilities an export consumes besides those of [Engine]. *)
Record Archiver : Type := mkArchiver {
  NewString : nat -> string;                   (* the n-th uuid.NewString() *)
  convert : Store -> string -> string -> list Platform -> Converted;
  deleteErr : Store -> string -> option error; (* the error of ImageService.Delete *)
  exportErr : Store -> list ExportOpt -> option error
}.

Definition removeName (name : string) (st : Store) : Store :=
  filter (fun img => negb (String.eqb (Name img) name)) st.

Definition logEvent (ev : Event) (w : World) : World :=
  mkWorld (images w) (events w ++ [ev]) (drawn w).

Definition setImages (st : Store) (w : World) : World :=
  mkWorld st (events w) (drawn w).

Section ExportPlan.
Variable eng : Engine.
Variable arch : Archiver.

(** [uuid.NewString()] *)
Definition uuidNewString : M World string :=
  fun w => (Returned (NewString arch (drawn w)),
            mkWorld (images w) (events w) (S (drawn w))).

(** [converter.Convert(ctx, client, dst, src, WithPlatform(platforms.Any(present...)))]:
    on success the engine holds a record named [dst] whose target is
    the derived one. *)
Definition Convert (dst src : string) (present : list Platform)
  : M World (option Image * option error) :=
  fun w =>
    match convert arch (images w) dst src present with
    | ConvTarget target =>
        let img := mkImage dst target in
        (Returned (Some img, None),
         logEvent (EvConvert dst src present (Some img))
                  (setImages (img :: removeName dst (images w)) w))
    | ConvFailed partial e =>
        (Returned (partial, Some e),
         logEvent (EvConvert dst src present partial) w)
    end.

(** [ImageService.Delete(ctx, name, SynchronousDelete())]: the record
    is gone when the call succeeds. *)
Definition Delete (name : string) : M World (option error) :=
  fun w =>
    match deleteErr arch (images w) name with
    | None => (Returned None,
               logEvent (EvDelete name) (setImages (removeName name (images w)) w))
    | Some e => (Returned (Some e), logEvent (EvDelete name) w)
    end.

(** [client.Export(ctx, outStream, opts...)] *)
Definition Export (opts : list ExportOpt) : M World (option error) :=
  fun w => (Returned (exportErr arch (images w) opts), logEvent (EvExport opts) w).

(** The loop of [optForImageExport] over the children of an index:
    which platform manifests have their blob.  [*child.Platform] on a
    nil platform panics. *)
Fixpoint probeChildren (children : list Descriptor)
    (missingPlatforms presentPlatforms : list Platform)
  : outcome (result (list Platform * list Platform)) :=
  match children with
  | [] => Returned (Ok (missingPlatforms, presentPlatforms))
  | child :: rest =>
      if IsManifestType eng (MediaType child) then
        let err := ReaderAt eng child in
        if IsNotFound err then
          match DescPlatform child with
          | None => Panicked
          | Some p => probeChildren rest (missingPlatforms ++ [p]) presentPlatforms
          end
        else
          match err with
          | Some e => Returned (Err e)
          | None =>
              match DescPlatform child with
              | None => Panicked
              | Some p => probeChildren rest missingPlatforms (presentPlatforms ++ [p])
              end
          end
      else probeChildren rest missingPlatforms presentPlatforms
  end.

Definition optForImageExport (name : string)
  : M World (option ExportOpt * option Image * option error) :=
  fun w =>
    match resolveImage eng (images w) name None with
    | (_, Some err) =>
        ret (None, None, Some (ErrWrap "failed to resolve image" err)) w
    | (img, None) =>
        match ParseNamed eng (Name img) with
        | Err err =>
            ret (None, None, Some (ErrWrap "failed to parse image reference" err)) w
        | Ok ref =>
            if IsIndexType eng (MediaType (Target img)) then
              match Children eng (Target img) with
              | Err err => ret (None, None, Some err) w
              | Ok children =>
                  match probeChildren children [] [] with
                  | Panicked => panic w
                  | Returned (Err err) => ret (None, None, Some err) w
                  | Returned (Ok (missingPlatforms, presentPlatforms)) =>
                      if length missingPlatforms =? 0 then
                        ret (Some (WithImage (Name img)), None, None) w
                      else
                        let srcRef := ref in
                        (u <- uuidNewString ;;
                         let targetRef := (srcRef ++ "-tmp-export" ++ u)%string in
                         '(newImg, err) <- Convert targetRef srcRef presentPlatforms ;;
                         match err with
                         | Some e => ret (None, newImg, Some e)
                         | None =>
                             match newImg with
                             | Some ni => ret (Some (WithManifest (Target ni) srcRef), newImg, None)
                             | None => panic
                             end
                         end) w
                  end
              end
            else ret (Some (WithImage (Name img)), None, None) w
        end
    end.

(** The options [ExportImage] starts from. *)
Definition baseOpts : list ExportOpt :=
  [WithSkipNonDistributableBlobs; WithPlatform_allPlatformsWithPreference].

(** The loop of [ExportImage] and the call of [client.Export] after
    it.  [deferred] is the stack of deferred deletions, the most
    recently deferred name first; the name is evaluated when the
    [defer] statement runs. *)
Fixpoint exportBody (names : list string) (opts : list ExportOpt)
    (deferred : list string) (w : World)
  : outcome (option error) * list string * World :=
  match names with
  | [] => let (o, w') := Export opts w in (o, deferred, w')
  | imageRef :: rest =>
      match optForImageExport imageRef w with
      | (Panicked, w') => (Panicked, deferred, w')
      | (Returned (newOpt, tmpImage, err), w') =>
          let deferred' :=
            match tmpImage with
            | Some tmp => Name tmp :: deferred
            | None => deferred
            end in
          match err with
          | Some e => (Returned (Some e), deferred', w')
          | None =>
              let opts' :=
                match newOpt with
                | Some o => opts ++ [o]
                | None => opts
                end in
              exportBody rest opts' deferred' w'
          end
      end
  end.

(** Function exit: the deferred deletions run last-in first-out, also
    when the body panicked; their errors are dropped. *)
Fixpoint runDeferred (deferred : list string) (w : World) : World :=
  match deferred with
  | [] => w
  | name :: older => runDeferred older (snd (Delete name w))
  end.

Definition ExportImage (names : list string) : M World (option error) :=
  fun w =>
    let '(o, deferred, w') := exportBody names baseOpts [] w in
    (o, runDeferred deferred w').
End ExportPlan.

(** ** Import *)

(** The calls [LoadImage] makes per imported image, with what the
    engine answered. *)
Inductive LoadEvent : Type :=
| LIsUnpacked (img : Image) (res : result bool)
| LUnpack (img : Image) (res : option error).

(** The engine side of an import.  The answers may depend on the calls
    made before (an unpack changes what is unpacked). *)
Record Importer : Type := mkImporter {
  Import : result (list Image);      (* client.Import(ctx, inTar, WithImportPlatform(platforms.All)) *)
  IsUnpacked : list LoadEvent -> Image -> result bool;
  Unpack : list LoadEvent -> Image -> option error
}.

Section Load.
Variable imp : Importer.

(** The loop of [LoadImage] over the imported images; [log] is what
    was called so far. *)
Fixpoint loadImages (imgs : list Image) (log : list LoadEvent)
  : option error * list LoadEvent :=
  match imgs with
  | [] => (None, log)
  | img :: rest =>
      match IsUnpacked imp log img with
      | Err err =>
          loadImages rest (log ++ [LIsUnpacked img (Err err)])
      | Ok unpacked =>
          let log1 := log ++ [LIsUnpacked img (Ok unpacked)] in
          if negb unpacked then
            match Unpack imp log1 img with
            | Some err =>
                (Some (ErrWrap "failed to unpack image" err),
                 log1 ++ [LUnpack img (Some err)])
            | None => loadImages rest (log1 ++ [LUnpack img None])
            end
          else loadImages rest log1
      end
  end.

Definition LoadImage : option error * list LoadEvent :=
  match Import imp with
  | Err err => (Some (ErrWrap "failed to import image" err), [])
  | Ok imgs => loadImages imgs []
  end.
End Load.

(** ** Image materialisation *)

(** [ocispec.ImageConfig], the fields [getImage] copies. *)
Record ImageConfig : Type := mkImageConfig {
  Entrypoint : list string;
  Env : list string;
  Cmd : list string;
  User : string;
  WorkingDir : string;
  ExposedPorts : list string;
  Volumes : list string
}.

(** [ocispec.Image] as decoded from the config blob. *)
Record OCIImage : Type := mkOCIImage {
  ociOS : string;
  ociArchitecture : string;
  ociConfig : ImageConfig
}.

(** The platform matcher a [containerd.Image] handle carries. *)
Inductive Matcher : Type :=
| DefaultMatcher                     (* containerd.NewImage *)
| OnlyStrict (p : Platform).         (* platforms.OnlyStrict(p) *)

(** [containerd.Image]: a record of the store seen through a matcher. *)
Record ClientImage : Type := mkClientImage {
  record : Image;
  matcher : Matcher
}.

(** [image.Image], the fields [getImage] fills. *)
Record RichImage : Type := mkRichImage {
  ID : string;
  imgOS : string;
  imgArchitecture : string;
  imgConfig : ImageConfig;
  imgRootFS : list Digest
}.

(** The content-store reads of [getImage]. *)
Record Content : Type := mkContent {
  Config : Image -> Matcher -> result Descriptor;
  ReadBlob : Descriptor -> result string;
  Unmarshal : string -> result OCIImage;          (* json.Unmarshal into ocispec.Image *)
  RootFS : ClientImage -> result (list Digest)
}.

Section Materialise.
Variable eng : Engine.
Variable cs : Content.
Variable store : Store.

Definition GetContainerdImage (refOrID : string) (platform : option Platform)
  : Image * option error :=
  resolveImage eng store refOrID platform.

Definition getImage (refOrID : string) (platform : option Platform)
  : result (ClientImage * RichImage) :=
  match GetContainerdImage refOrID platform with
  | (_, Some err) => Err err
  | (ctrdimg, None) =>
      let containerdImage :=
        match platform with
        | Some p => mkClientImage ctrdimg (OnlyStrict p)
        | None => mkClientImage ctrdimg DefaultMatcher
        end in
      match Config cs ctrdimg (matcher containerdImage) with
      | Err err => Err err
      | Ok conf =>
          match ReadBlob cs conf with
          | Err err => Err err
          | Ok imageConfigBytes =>
              match Unmarshal cs imageConfigBytes with
              | Err err => Err err
              | Ok ociimage =>
                  match RootFS cs containerdImage with
                  | Err err => Err err
                  | Ok fs =>
                      Ok (containerdImage,
                          mkRichImage (DescDigest (Target ctrdimg))
                                      (ociOS ociimage)
                                      (ociArchitecture ociimage)
                                      (ociConfig ociimage)
                                      fs)
                  end
              end
          end
      end
  end.
End Materialise.

(** ** Change computation *)

Inductive ChangeType : Type := ChangeModify | ChangeAdd | ChangeDelete.

(** [archive.Change] *)
Record Change : Type := mkChange {
  Path : string;
  Kind : ChangeType
}.

Definition Mount := string.

(** [container.Container], the fields [Changes] reads. *)
Record Container : Type := mkContainer {
  ContainerID : string;
  ConfigImage : string;
  ConfigPlatform : Platform
}.

(** The snapshotter and mount calls of one [Changes] call. *)
Inductive SnapEvent : Type :=
| SMounts (key : string)
| SGetImage (refOrID : string)
| SView (key parent : string)
| SMount (root : string)
| SChangesDirs (fs root : string)
| SUnmount (root : string)
| SRemove (key : string).

(** The snapshotter, the mount package and the directory differ, and
    the root file system of the base image as [Changes] reads it again,
    in a call of its own, after [getImage] has returned. *)
Record Snapshotter : Type := mkSnapshotter {
  Mounts : string -> list Mount * option error;
  NewRandom : result string;                    (* uuid.NewRandom(), as its String() *)
  ChainID : list Digest -> string;              (* identity.ChainID(diffIDs).String() *)
  View : string -> string -> result (list Mount);
  Remove : string -> option error;
  ReadonlyMounts : list Mount -> list Mount;    (* oci.ReadonlyMounts *)
  MkdirTemp : nat -> result string;             (* the n-th temporary directory *)
  mountAll : list Mount -> string -> option error;
  unmount : string -> option error;
  ChangesDirs : string -> string -> list Change * option error;
  BaseRootFS : ClientImage -> result (list Digest)   (* baseImg.RootFS(ctx) in Changes *)
}.

(** The state of one [Changes] call: the snapshot views that exist, the
    temporary mount points that are mounted, the calls made, the number
    of temporary directories made, and the two named results of
    [Changes], which its closures and its deferred function assign. *)
Record Snap : Type := mkSnap {
  views : list string;
  mounted : list string;
  calls : list SnapEvent;
  tmpdirs : nat;
  changes : list Change;
  err : option error
}.

Definition call (ev : SnapEvent) : M Snap unit :=
  fun s => (Returned tt,
            mkSnap (views s) (mounted s) (calls s ++ [ev]) (tmpdirs s) (changes s) (err s)).

Definition setViews (f : list string -> list string) : M Snap unit :=
  fun s => (Returned tt,
            mkSnap (f (views s)) (mounted s) (calls s) (tmpdirs s) (changes s) (err s)).

Definition setMounted (f : list string -> list string) : M Snap unit :=
  fun s => (Returned tt,
            mkSnap (views s) (f (mounted s)) (calls s) (tmpdirs s) (changes s) (err s)).

Definition nextTmpdir : M Snap nat :=
  fun s => (Returned (tmpdirs s),
            mkSnap (views s) (mounted s) (calls s) (S (tmpdirs s)) (changes s) (err s)).

Definition setChanges (c : list Change) : M Snap unit :=
  fun s => (Returned tt,
            mkSnap (views s) (mounted s) (calls s) (tmpdirs s) c (err s)).

Definition setErr (e : option error) : M Snap unit :=
  fun s => (Returned tt,
            mkSnap (views s) (mounted s) (calls s) (tmpdirs s) (changes s) e).

Definition getErr : M Snap (option error) := fun s => (Returned (err s), s).

Definition without (x : string) (l : list string) : list string :=
  filter (fun y => negb (String.eqb y x)) l.

(** [defer d] before [body]: [d] runs when [body] is left, also by a
    panic; a panic of [d] is a panic of the whole. *)
Definition defer {S A : Type} (d : M S unit) (body : M S A) : M S A :=
  fun s =>
    match body s with
    | (o, s1) =>
        match d s1 with
        | (Returned _, s2) => (o, s2)
        | (Panicked, s2) => (Panicked, s2)
        end
    end.

Section Changes.
Variable eng : Engine.
Variable cs : Content.
Variable store : Store.
Variable sn : Snapshotter.

(** The deferred unmount of [WithTempMount]: an unmount error is put
    in front of the error [r] the call is returning. *)
Definition unmountTemp (root : string) (r : option error) : M Snap (option error) :=
  _ <- call (SUnmount root) ;;
  match unmount sn root with
  | None => _ <- setMounted (without root) ;; ret r
  | Some uerr =>
      let uerr' := ErrWrap ("failed to unmount " ++ root)%string uerr in
      match r with
      | None => ret (Some uerr')
      | Some e => ret (Some (ErrWrap (Error uerr') e))
      end
  end.

(** [mount.WithTempMount(ctx, mounts, f)]: make a temporary directory,
    mount there, call [f] with it, and unmount on every way out, also
    when the mount failed half-way or [f] panicked.  The error of [f]
    comes back wrapped. *)
Definition WithTempMount (mounts : list Mount) (f : string -> M Snap (option error))
  : M Snap (option error) :=
  n <- nextTmpdir ;;
  match MkdirTemp sn n with
  | Err uerr => ret (Some (ErrWrap "failed to create temp dir" uerr))
  | Ok root =>
      fun s =>
        match (_ <- call (SMount root) ;;
               match mountAll sn mounts root with
               | Some uerr =>
                   ret (Some (ErrWrap ("failed to mount " ++ root)%string uerr))
               | None =>
                   _ <- setMounted (cons root) ;;
                   e <- f root ;;
                   match e with
                   | Some e' =>
                       ret (Some (ErrWrap ("mount callback failed on " ++ root)%string e'))
                   | None => ret None
                   end
               end) s with
        | (Returned r, s') => unmountTemp root r s'
        | (Panicked, s') => (Panicked, snd (unmountTemp root None s'))
        end
  end.

(** The deferred function of [Changes]: remove the view, then fold
    the removal error into the named result [err].  [uerr.Error()] is
    called whenever [err] is set, also on a nil [uerr]. *)
Definition removeView (rnd : string) : M Snap unit :=
  _ <- call (SRemove rnd) ;;
  let uerr := Remove sn rnd in
  _ <- match uerr with
       | None => setViews (without rnd)
       | Some _ => ret tt
       end ;;
  e <- getErr ;;
  match e with
  | None => setErr uerr
  | Some e' =>
      match uerr with
      | Some ue => setErr (Some (ErrWrap (Error ue) e'))
      | None => panic
      end
  end.

(** [return nil, uerr] before the deferred function is registered. *)
Definition returnErr (uerr : option error) : M Snap unit :=
  _ <- setChanges [] ;; setErr uerr.

(** The statements of [Changes]; the results are left in the named
    results [changes] and [err]. *)
Definition changesBody (container : Container) : M Snap unit :=
  _ <- call (SMounts (ContainerID container)) ;;
  let '(mounts, uerr) := Mounts sn (ContainerID container) in
  e <- getErr ;;
  match e with
  | Some _ => returnErr uerr
  | None =>
      let platform := ConfigPlatform container in
      _ <- call (SGetImage (ConfigImage container)) ;;
      match getImage eng cs store (ConfigImage container) (Some platform) with
      | Err uerr => returnErr (Some uerr)
      | Ok (baseImg, _) =>
          match BaseRootFS sn baseImg with
          | Err uerr => returnErr (Some uerr)
          | Ok diffIDs =>
              match NewRandom sn with
              | Err uerr => returnErr (Some uerr)
              | Ok rnd =>
                  _ <- call (SView rnd (ChainID sn diffIDs)) ;;
                  match View sn rnd (ChainID sn diffIDs) with
                  | Err uerr => returnErr (Some uerr)
                  | Ok parent =>
                      _ <- setViews (cons rnd) ;;
                      defer (removeView rnd)
                        (e <- WithTempMount (ReadonlyMounts sn mounts) (fun fs =>
                                WithTempMount parent (fun root =>
                                  _ <- call (SChangesDirs fs root) ;;
                                  let '(c, e) := ChangesDirs sn fs root in
                                  _ <- setChanges c ;;
                                  _ <- setErr e ;;
                                  ret e)) ;;
                         setErr e)
                  end
              end
          end
      end
  end.

(** The snapshotter state a call starts from: the named results are
    their zero values. *)
Definition enter (s : Snap) : Snap :=
  mkSnap (views s) (mounted s) (calls s) (tmpdirs s) [] None.

Definition Changes (container : Container) : M Snap (list Change * option error) :=
  fun s =>
    match changesBody container (enter s) with
    | (Returned _, s') => (Returned (changes s', err s'), s')
    | (Panicked, s') => (Panicked, s')
    end.
End Changes.

(** ** The rest of the image service *)

(** [GetImageOpts], the fields [GetImage] reads. *)
Record GetImageOpts : Type := mkGetImageOpts {
  optPlatform : option Platform;
  optDetails : bool
}.

(** [image.Details] *)
Record Details : Type := mkDetails {
  References : list string;       (* the reference.Named values, by their String() *)
  DetailsSize : nat;
  Driver : string;
  LastUpdated : nat
}.

(** [*image.Image] as [GetImage] returns it: the image of [getImage]
    and its [Details] pointer. *)
Record DetailedImage : Type := mkDetailedImage {
  detailedImage : RichImage;
  imageDetails : option Details
}.

(** What [GetImage] reads besides [Engine] and [Content]: the size of
    an image handle, the [UpdatedAt] stamp of a record (a field of the
    record in the source) and the snapshotter name of the service. *)
Record Inspector : Type := mkInspector {
  ImageSize : ClientImage -> result nat;     (* ii.Size(ctx) *)
  UpdatedAt : Image -> nat;                  (* ii.Metadata().UpdatedAt *)
  snapshotterName : string                   (* i.snapshotter *)
}.

(** [platforms.MatchComparer] *)
Record MatchComparer : Type := mkMatchComparer {
  Match : Platform -> bool;
  Less : Platform -> Platform -> bool
}.

(** [allPlatformsWithPreference(preferred)]: the matcher whose [Match]
    is constant and whose [Less] is the preferred one. *)
Definition allPlatformsWithPreference (preferred : MatchComparer) : MatchComparer :=
  mkMatchComparer (fun _ => true) (fun p1 p2 => Less preferred p1 p2).

(** Modelled from the spec: [containerimage.ImagePrefixDangling] is a
    constant of the builder's exporter package, which is not among the
    sources; the spec gives the dangling name as
    [moby-dangling@<digest>]. *)
Definition ImagePrefixDangling : string := "moby-dangling".

Definition danglingImageName (digest : Digest) : string :=
  (ImagePrefixDangling ++ "@" ++ digest)%string.

Definition isDanglingImage (img : ClientImage) : bool :=
  String.eqb (Name (record img)) (danglingImageName (DescDigest (Target (record img)))).

Section Service.
Variable eng : Engine.
Variable cs : Content.
Variable insp : Inspector.
Variable store : Store.

(** The handler [presentChildrenHandler] returns: the children of a
    descriptor whose blob is in the store, none for a blob that is not
    found. *)
Definition presentChildrenHandler (desc : Descriptor) : list Descriptor * option error :=
  match ReaderAt eng desc with
  | Some err =>
      if isNotFoundErr err then ([], None) else ([], Some err)
  | None =>
      match Children eng desc with
      | Ok subdescs => (subdescs, None)
      | Err err => ([], Some err)
      end
  end.

(** The loop of [GetImage] over the records that share the target
    digest: parse every name, stop at the first that does not parse. *)
Fixpoint parseTags (tagged : list Image) (tags : list string) : result (list string) :=
  match tagged with
  | [] => Ok tags
  | i :: rest =>
      match ParseNamed eng (Name i) with
      | Err err => Err err
      | Ok name => parseTags rest (tags ++ [name])
      end
  end.

Definition GetImage (refOrID : string) (options : GetImageOpts) : result DetailedImage :=
  match getImage eng cs store refOrID (optPlatform options) with
  | Err err => Err err
  | Ok (ii, img) =>
      if optDetails options then
        match ImageSize insp ii with
        | Err err => Err err
        | Ok size =>
            match List eng store [FTargetDigestEq (DescDigest (Target (record ii)))] with
            | Err err => Err err
            | Ok tagged =>
                match parseTags tagged [] with
                | Err err => Err err
                | Ok tags =>
                    Ok (mkDetailedImage img
                          (Some (mkDetails tags size (snapshotterName insp)
                                           (UpdatedAt insp (record ii)))))
                end
            end
        end
      else Ok (mkDetailedImage img None)
  end.
End Service.

(** [PerformWithBaseFS]: run [fn] on the container's file system,
    mounted at a temporary place. *)
Definition PerformWithBaseFS (sn : Snapshotter) (c : Container)
    (fn : string -> M Snap (option error)) : M Snap (option error) :=
  _ <- call (SMounts (ContainerID c)) ;;
  let '(mounts, err) := Mounts sn (ContainerID c) in
  match err with
  | Some e => ret (Some e)
  | None => WithTempMount sn mounts fn
  end.

(** * Notions used in the statements *)

(** The target digest of a record. *)
Definition targetDigest (img : Image) : Digest := DescDigest (Target img).

(** The probe of a child's blob came back with the blob or with a
    not-found: the loop of [optForImageExport] goes on to read the
    child's platform. *)
Definition probed (eng : Engine) (c : Descriptor) : Prop :=
  ReaderAt eng c = None \/ IsNotFound (ReaderAt eng c) = true.

(** The platforms of the manifest children whose blob is there, and of
    those whose blob is not found. *)
Definition presentOf (eng : Engine) (children : list Descriptor) : list Platform :=
  flat_map (fun c =>
              if IsManifestType eng (MediaType c) then
                match ReaderAt eng c, DescPlatform c with
                | None, Some p => [p]
                | _, _ => []
                end
              else []) children.

Definition missingOf (eng : Engine) (children : list Descriptor) : list Platform :=
  flat_map (fun c =>
              if IsManifestType eng (MediaType c) then
                match DescPlatform c with
                | Some p => if IsNotFound (ReaderAt eng c) then [p] else []
                | None => []
                end
              else []) children.

(** Every manifest child of an index target has its blob. *)
Definition allManifestsPresent (eng : Engine) (target : Descriptor) : Prop :=
  IsIndexType eng (MediaType target) = true ->
  exists children,
    Children eng target = Ok children
    /\ forall c, In c children -> IsManifestType eng (MediaType c) = true ->
                 ReaderAt eng c = None.

(** Every manifest child of an index target carries a platform. *)
Definition manifestsHavePlatform (eng : Engine) (target : Descriptor) : Prop :=
  IsIndexType eng (MediaType target) = true ->
  forall children,
    Children eng target = Ok children ->
    forall c, In c children -> IsManifestType eng (MediaType c) = true ->
              DescPlatform c <> None.

(** The names of the images the conversions of a log came back with:
    these are the temporary images of the export, in order of
    creation. *)
Definition tmpNames (evs : list Event) : list string :=
  flat_map (fun ev =>
              match ev with
              | EvConvert _ _ _ (Some img) => [Name img]
              | _ => []
              end) evs.

Definition isConvert (ev : Event) : Prop :=
  exists dst src present res, ev = EvConvert dst src present res.


(** A snapshotter whose [Mounts] answers the same mounts without the
    error. *)
Definition withoutMountsError (sn : Snapshotter) : Snapshotter :=
  mkSnapshotter (fun key => (fst (Mounts sn key), None))
                (NewRandom sn) (ChainID sn) (View sn) (Remove sn) (ReadonlyMounts sn)
                (MkdirTemp sn) (mountAll sn) (unmount sn) (ChangesDirs sn)
                (BaseRootFS sn).

(** The calls between the creation and the removal of the view. *)
Definition isMountCall (ev : SnapEvent) : Prop :=
  (exists root, ev = SMount root)
  \/ (exists fs root, ev = SChangesDirs fs root)
  \/ (exists root, ev = SUnmount root).

(** The images whose is-unpacked check a log records, in order. *)
Definition checkedImages (log : list LoadEvent) : list Image :=
  flat_map (fun ev =>
              match ev with
              | LIsUnpacked img _ => [img]
              | LUnpack _ _ => []
              end) log.

(** An instruction that [optForImageExport] plans. *)
Definition isPlanOpt (o : ExportOpt) : Prop :=
  (exists name, o = WithImage name) \/ (exists target name, o = WithManifest target name).

(** The request [name] resolves against the store to a record that is
    exported by name with all its manifests. *)
Definition exportsByName (eng : Engine) (st : Store) (name : string) : Prop :=
  snd (resolveImage eng st name None) = None
  /\ allManifestsPresent eng (Target (fst (resolveImage eng st name None)))
  /\ manifestsHavePlatform eng (Target (fst (resolveImage eng st name None)))
  /\ exists ref, ParseNamed eng (Name (fst (resolveImage eng st name None))) = Ok ref.

Definition byNameOpt (eng : Engine) (st : Store) (name : string) : ExportOpt :=
  WithImage (Name (fst (resolveImage eng st name None))).

(** * An in-memory engine

    A small fake of the collaborators, used to run the adapter on
    concrete stores. *)

Definition linux_amd64 : Platform := mkPlatform "linux" "amd64" "".
Definition linux_arm64 : Platform := mkPlatform "linux" "arm64" "".

(** Strict platform comparison: os, architecture and variant agree. *)
Definition strictMatch (p q : Platform) : bool :=
  String.eqb (OS p) (OS q) && String.eqb (Architecture p) (Architecture q)
  && String.eqb (Variant p) (Variant q).

Definition formatPlatform (p : Platform) : string :=
  if String.eqb (Variant p) "" then (OS p ++ "/" ++ Architecture p)%string
  else (OS p ++ "/" ++ Architecture p ++ "/" ++ Variant p)%string.

Definition MediaTypeImageIndex : string := "application/vnd.oci.image.index.v1+json".
Definition MediaTypeImageManifest : string := "application/vnd.oci.image.manifest.v1+json".

Definition matchesFilter (img : Image) (f : Filter) : bool :=
  match f with
  | FTargetDigestEq d => String.eqb (DescDigest (Target img)) d
  | FNameEq name => String.eqb (Name img) name
  | FTargetDigestRe pre rest =>
      String.prefix ("sha256:" ++ pre)%string (DescDigest (Target img))
      && (String.length (DescDigest (Target img)) =? 7 + String.length pre + rest)
  end.

Definition memList (st : Store) (filters : list Filter) : result (list Image) :=
  Ok (filter (fun img => existsb (matchesFilter img) filters) st).

Definition memGet (st : Store) (name : string) : result Image :=
  match find (fun img => String.eqb (Name img) name) st with
  | Some img => Ok img
  | None => Err ErrNotFound
  end.

Fixpoint hasTag (s : string) : bool :=
  match s with
  | EmptyString => false
  | String c rest => Ascii.eqb c ":" || hasTag rest
  end.

(** Names are taken as they are and get [:latest] when they have no
    tag; [platformsOf] gives the platforms of a target; [kids] and
    [blobErr] give the children and the blob presence. *)
Definition memEngine (platformsOf : Descriptor -> list Platform)
    (kids : Descriptor -> list Descriptor) (blobErr : Descriptor -> option error)
    (parseNamed : string -> result string) : Engine :=
  mkEngine (fun s => Ok (RefNamed s))
           (fun n => if hasTag n then n else (n ++ ":latest")%string)
           parseNamed
           memList memGet
           (fun d => Ok (platformsOf d))
           strictMatch formatPlatform
           (String.eqb MediaTypeImageIndex)
           (String.eqb MediaTypeImageManifest)
           (fun d => Ok (kids d))
           blobErr.

Definition zeros60 : string :=
  "000000000000000000000000000000000000000000000000000000000000".

Definition manifestOf (dgst : Digest) (p : option Platform) : Descriptor :=
  mkDescriptor MediaTypeImageManifest dgst p.

(** Scenario S1: a record named by the short form next to a record whose
    digest starts with it. *)
Definition imgNamed : Image :=
  mkImage "abcd:latest" (manifestOf ("sha256:1111" ++ zeros60)%string (Some linux_amd64)).
Definition imgByDigest : Image :=
  mkImage "other:latest" (manifestOf ("sha256:abcd" ++ zeros60)%string (Some linux_amd64)).
Definition imgByDigest' : Image :=
  mkImage "third:latest" (manifestOf ("sha256:abcd" ++ zeros60)%string (Some linux_amd64)).
Definition imgByDigest2 : Image :=
  mkImage "fourth:latest"
          (manifestOf "sha256:abcd100000000000000000000000000000000000000000000000000000000000"
                      (Some linux_amd64)).

Definition plainEngine : Engine :=
  memEngine (fun _ => [linux_amd64]) (fun _ => []) (fun _ => None) (fun s => Ok s).

(** An index [foo:tag] with an amd64 and an arm64 manifest. *)
Definition amd64Manifest : Descriptor := manifestOf "sha256:amd64" (Some linux_amd64).
Definition arm64Manifest : Descriptor := manifestOf "sha256:arm64" (Some linux_arm64).
Definition barePlatformManifest : Descriptor := manifestOf "sha256:bare" None.
Definition fooIndex : Descriptor := mkDescriptor MediaTypeImageIndex "sha256:index" None.
Definition fooTag : Image := mkImage "foo:tag" fooIndex.

Definition indexEngine (kids : list Descriptor) (blobErr : Descriptor -> option error)
  : Engine :=
  memEngine (fun _ => [linux_amd64; linux_arm64]) (fun _ => kids) blobErr (fun s => Ok s).

(** The arm64 blob is not in the content store. *)
Definition arm64Missing (d : Descriptor) : option error :=
  if String.eqb (DescDigest d) "sha256:arm64" then Some ErrNotFound else None.

(** Every blob read fails with an error that is not a not-found. *)
Definition blobsUnreadable (d : Descriptor) : option error :=
  Some (ErrNew "unavailable").

Definition derivedIndex (present : list Platform) : Descriptor :=
  mkDescriptor MediaTypeImageIndex
               ("sha256:derived" ++ String.concat "," (map formatPlatform present))%string None.

Definition memArchiver : Archiver :=
  mkArchiver (fun n => if n =? 0 then "uuid0" else "uuid1")
             (fun _ _ _ present => ConvTarget (derivedIndex present))
             (fun _ _ => None)
             (fun _ _ => None).

Definition world0 (st : Store) : World := mkWorld st [] 0.

(** A comparer with the sub-platform rule of [platforms.Only] that the
    examples use: an amd64 constraint also matches the 386 platform of
    the same OS (the rules for the arm variants are left out). *)
Definition linux_386 : Platform := mkPlatform "linux" "386" "".

Definition subPlatforms (p : Platform) : list Platform :=
  if String.eqb (Architecture p) "amd64"
  then [mkPlatform (OS p) "386" (Variant p)]
  else [].

Definition onlyMatch (p q : Platform) : bool :=
  strictMatch p q || existsb (fun v => strictMatch v q) (subPlatforms p).

(** The in-memory engine of a store whose targets are 386 images, with
    that comparer. *)
Definition legacyEngine : Engine :=
  mkEngine (fun s => Ok (RefNamed s))
           (fun n => if hasTag n then n else (n ++ ":latest")%string)
           (fun s => Ok s)
           memList memGet
           (fun _ => Ok [linux_386])
           onlyMatch formatPlatform
           (String.eqb MediaTypeImageIndex)
           (String.eqb MediaTypeImageManifest)
           (fun _ => Ok [])
           (fun _ => None).

Definition legacyImage : Image :=
  mkImage "legacy:latest" (manifestOf "sha256:legacy" (Some linux_386)).

(** A container on [base:latest], and a snapshotter that answers with
    the given results of [Mounts], [ChangesDirs] and [Remove]. *)
Definition baseImage : Image :=
  mkImage "base:latest" (manifestOf "sha256:base" (Some linux_amd64)).

Definition container1 : Container := mkContainer "c1" "base" linux_amd64.

Definition memContent : Content :=
  mkContent (fun _ _ => Ok (mkDescriptor "application/vnd.oci.image.config.v1+json" "sha256:conf" None))
            (fun _ => Ok "{}")
            (fun _ => Ok (mkOCIImage "linux" "amd64" (mkImageConfig [] [] [] "" "" [] [])))
            (fun _ => Ok ["sha256:layer1"]).

Definition memSnapshotter (mountsRes : list Mount * option error)
    (diffRes : list Change * option error) (removeRes : option error) : Snapshotter :=
  mkSnapshotter (fun _ => mountsRes)
                (Ok "view0")
                (String.concat ",")
                (fun _ _ => Ok ["view-mount"])
                (fun _ => removeRes)
                (fun ms => ms)
                (fun n => Ok (if n =? 0 then "/tmp/mount0" else "/tmp/mount1"))
                (fun _ _ => None)
                (fun _ => None)
                (fun _ _ => diffRes)
                (fun _ => Ok ["sha256:layer1"]).

Definition snap0 : Snap := mkSnap [] [] [] 0 [] None.

Definition diffFailed : error := ErrNew "diff failed".
Definition mountsFailed : error := ErrNew "snapshot c1 does not exist".
Definition removeFailed : error := ErrNew "remove failed".
Definition someChanges : list Change := [mkChange "/etc/hosts" ChangeModify].

(** An import of two images: unpacking the first fails. *)
Definition failingImporter : Importer :=
  mkImporter (Ok [baseImage; fooTag])
             (fun _ _ => Ok false)
             (fun _ _ => Some (ErrNew "no space left")).

(** A store inspector, a reference parser that takes canonical names
    only (no digest part), and a dangling record next to [base:latest]. *)
Definition memInspector : Inspector :=
  mkInspector (fun _ => Ok 42) (fun _ => 7) "overlayfs".

Fixpoint hasDigestPart (s : string) : bool :=
  match s with
  | EmptyString => false
  | String c rest => Ascii.eqb c "@" || hasDigestPart rest
  end.

Definition canonicalOnly (s : string) : result string :=
  if hasDigestPart s then Err (ErrNew "repository name must be canonical") else Ok s.

Definition namesEngine : Engine :=
  memEngine (fun _ => [linux_amd64]) (fun _ => []) (fun _ => None) canonicalOnly.

Definition danglingBase : Image :=
  mkImage (danglingImageName "sha256:base") (manifestOf "sha256:base" (Some linux_amd64)).

(** The rich image of [base:latest] under [memContent]. *)
Definition baseRich : RichImage :=
  mkRichImage "sha256:base" "linux" "amd64" (mkImageConfig [] [] [] "" "" [] [])
              ["sha256:layer1"].

(** A snapshotter with the given answers to the second read of the
    root file system, to the identifier draw and to the creation of the
    view. *)
Definition rootfsFailed : error := ErrNew "rootfs unreadable".
Definition uuidFailed : error := ErrNew "no entropy".
Definition viewFailed : error := ErrNew "view failed".

Definition stepSnapshotter (rootfsRes : result (list Digest)) (rndRes : result string)
    (viewRes : result (list Mount)) : Snapshotter :=
  mkSnapshotter (fun _ => (["m"], None))
                rndRes
                (String.concat ",")
                (fun _ _ => viewRes)
                (fun _ => None)
                (fun ms => ms)
                (fun n => Ok (if n =? 0 then "/tmp/mount0" else "/tmp/mount1"))
                (fun _ _ => None)
                (fun _ => None)
                (fun _ _ => ([], None))
                (fun _ => rootfsRes).

(** A callback of [PerformWithBaseFS] that fails. *)
Definition callbackFailed : error := ErrNew "callback failed".

Definition failingCallback (root : string) : M Snap (option error) :=
  ret (Some callbackFailed).

(** An import of two images that are unpacked already. *)
Definition unpackedImporter : Importer :=
  mkImporter (Ok [baseImage; fooTag])
             (fun _ _ => Ok true)
             (fun _ _ => Some (ErrNew "not called")).

(** An archiver whose conversions fail. *)
Definition convertFailed : error := ErrNew "convert failed".

Definition failingArchiver : Archiver :=
  mkArchiver (fun _ => "uuid0")
             (fun _ _ _ _ => ConvFailed None convertFailed)
             (fun _ _ => None)
             (fun _ _ => None).

(** * Theorems *)

(** ** The RootFS-child relation *)

Lemma diffIDsAgree_firstn (child parent : list Digest) :
  diffIDsAgree child parent = true <->
  length parent <= length child /\ firstn (length parent) child = parent.
Proof.
  revert child; induction parent as [|p parent IH]; intros child; simpl.
  - split; [intros _; split; [lia | reflexivity] | now destruct child].
  - destruct child as [|c child]; simpl.
    + split; [discriminate | intros [H _]; lia].
    + rewrite andb_true_iff, IH, String.eqb_eq. split.
      * intros [-> [Hlen Hpre]]. split; [lia | now rewrite Hpre].
      * intros [Hlen Hpre]. injection Hpre as -> Hpre. repeat split; [lia | assumption].
Qed.

Lemma isRootfsChildOf_spec (child parent : list Digest) :
  isRootfsChildOf child parent = true <->
  length parent < length child /\ firstn (length parent) child = parent.
Proof.
  unfold isRootfsChildOf.
  destruct (Nat.leb_spec (length child) (length parent)) as [Hle|Hlt].
  - split; [discriminate | intros [H _]; lia].
  - rewrite diffIDsAgree_firstn. split; intros [H1 H2]; split; auto; lia.
Qed.

(** C9: [isRootfsChildOf child parent] is true exactly when the
    parent's diff-ID list is a strict prefix of the child's (the child
    is the parent followed by a non-empty rest); no rootfs is a child of
    itself; and a true result gives a longer child whose first
    [length parent] entries are the parent. *)
Theorem isRootfsChildOf_strict_prefix (child parent : list Digest) :
  (isRootfsChildOf child parent = true <->
   exists rest, rest <> [] /\ child = parent ++ rest)
  /\ isRootfsChildOf child child = false
  /\ (isRootfsChildOf child parent = true ->
      length child > length parent /\ firstn (length parent) child = parent).
Proof.
  split; [|split].
  - rewrite isRootfsChildOf_spec. split.
    + intros [Hlen Hpre]. exists (skipn (length parent) child). split.
      * intros Hnil. apply (f_equal (@length _)) in Hnil.
        rewrite length_skipn in Hnil. simpl in Hnil. lia.
      * rewrite <- Hpre at 1. symmetry. apply firstn_skipn.
    + intros [rest [Hrest ->]]. rewrite length_app. split.
      * destruct rest; [congruence | simpl; lia].
      * rewrite firstn_app, Nat.sub_diag, firstn_all. simpl. apply app_nil_r.
  - unfold isRootfsChildOf. now rewrite Nat.leb_refl.
  - intros H. apply isRootfsChildOf_spec in H. destruct H. split; [lia | assumption].
Qed.

Lemma isRootfsChildOf_strict_prefix_witness :
  isRootfsChildOf (toRootfs "ABC") (toRootfs "AB") = true
  /\ length (toRootfs "ABC") > length (toRootfs "AB")
  /\ firstn (length (toRootfs "AB")) (toRootfs "ABC") = toRootfs "AB".
Proof.
  split; [reflexivity|].
  apply (proj2 (proj2 (isRootfsChildOf_strict_prefix (toRootfs "ABC") (toRootfs "AB")))).
  reflexivity.
Defined.

(** The table of [TestIsRootfsChildOf]. *)
Example TestIsRootfsChildOf :
  let ab := toRootfs "AB" in
  let abc := toRootfs "ABC" in
  let abd := toRootfs "ABD" in
  let xyz := toRootfs "XYZ" in
  let xyzab := toRootfs "XYZAB" in
  isRootfsChildOf abc ab = true
  /\ isRootfsChildOf xyzab xyz = true
  /\ isRootfsChildOf xyz xyz = false
  /\ isRootfsChildOf abd abc = false
  /\ isRootfsChildOf xyz abc = false
  /\ isRootfsChildOf ab abc = false
  /\ isRootfsChildOf xyzab ab = false.
Proof. repeat split. Qed.

(** ** Short-ID resolution *)

Lemma scanImages_found (ref : string) (imgs : list Image) (acc : set Digest) (img : Image) :
  scanImages ref imgs acc = inl img -> In img imgs /\ Name img = ref.
Proof.
  revert acc; induction imgs as [|i imgs IH]; intros acc; simpl; [discriminate|].
  destruct (String.eqb_spec (Name i) ref) as [Heq|Hne].
  - intros [= <-]. auto.
  - intros H. apply IH in H. tauto.
Qed.

Lemma scanImages_digests (ref : string) (imgs : list Image) (acc ds : set Digest) :
  scanImages ref imgs acc = inr ds ->
  NoDup acc ->
  (forall img, In img imgs -> Name img <> ref)
  /\ NoDup ds
  /\ (forall d, In d ds <-> In d acc \/ exists img, In img imgs /\ targetDigest img = d).
Proof.
  revert acc; induction imgs as [|i imgs IH]; intros acc; simpl.
  - intros [= <-] Hnd. split; [|split].
    + intros img [].
    + assumption.
    + intros d. split; [auto|]. intros [H|[img [[] _]]]; assumption.
  - destruct (String.eqb_spec (Name i) ref) as [Heq|Hne]; [discriminate|].
    intros H Hnd. apply IH in H; [|now apply set_add_nodup].
    destruct H as [Hnames [Hnd' Hin]]. split; [|split].
    + intros img [<-|Hi]; auto.
    + assumption.
    + intros d. rewrite Hin, set_add_iff. split.
      * intros [[Hd|Ha]|[img [Hi Hd]]].
        -- right. exists i. split; [now left | now symmetry].
        -- now left.
        -- right. exists img. split; [now right | assumption].
      * intros [Ha|[img [[<-|Hi] Hd]]].
        -- left. now right.
        -- left. left. now symmetry.
        -- right. now exists img.
Qed.

Lemma scanImages_total (ref : string) (imgs : list Image) (acc : set Digest) :
  (forall img, In img imgs -> Name img <> ref) ->
  exists ds, scanImages ref imgs acc = inr ds.
Proof.
  revert acc; induction imgs as [|i imgs IH]; intros acc Hn; simpl; [eauto|].
  destruct (String.eqb_spec (Name i) ref) as [Heq|Hne].
  - exfalso. apply (Hn i); simpl; auto.
  - apply IH. intros img Hi. apply Hn. simpl; auto.
Qed.

Lemma scanImages_hit (ref : string) (imgs : list Image) (acc : set Digest) (i : Image) :
  In i imgs -> Name i = ref -> exists img, scanImages ref imgs acc = inl img.
Proof.
  intros Hi Hname.
  destruct (scanImages ref imgs acc) as [img|ds] eqn:E; [eauto|].
  exfalso. revert acc E. induction imgs as [|j imgs IH]; intros acc; simpl; [destruct Hi|].
  destruct (String.eqb_spec (Name j) ref) as [Heq|Hne]; [discriminate|].
  destruct Hi as [->|Hi]; [contradiction|]. apply IH; assumption.
Qed.

Lemma two_distinct_length (ds : list Digest) :
  NoDup ds -> (1 < length ds <-> exists a b, In a ds /\ In b ds /\ a <> b).
Proof.
  intros Hnd. split.
  - destruct ds as [|a [|b ds]]; simpl; try lia. intros _.
    exists a, b. repeat split; auto.
    intros ->. inversion Hnd as [|x l Hni _]. apply Hni. simpl; auto.
  - intros [a [b [Ha [Hb Hab]]]].
    destruct ds as [|x [|y ds]]; simpl in *; try lia; try tauto.
    destruct Ha as [<-|[]], Hb as [<-|[]]. congruence.
Qed.

(** C3: a short-ID resolution whose [List] call returns two or more
    records returns a record named by the candidate named form when
    there is one; otherwise, when all the records share one target
    digest, it returns one of the listed records; and when they carry
    more than one digest it fails with NotFound "ambiguous
    reference". *)
Theorem resolveImage_shortID_several
    (eng : Engine) (store : Store) (refOrID parsed : string)
    (platform : option Platform) (imgs : list Image) :
  shortID refOrID = true ->
  ParseAnyReference eng refOrID = Ok (RefNamed parsed) ->
  List eng store [FNameEq (TagNameOnly eng parsed);
                  FTargetDigestRe refOrID (64 - String.length refOrID)] = Ok imgs ->
  2 <= length imgs ->
  ((exists img, In img imgs /\ Name img = TagNameOnly eng parsed) ->
   exists img, resolveImage eng store refOrID platform = (img, None)
               /\ In img imgs /\ Name img = TagNameOnly eng parsed)
  /\ ((forall img, In img imgs -> Name img <> TagNameOnly eng parsed) ->
      (forall a b, In a imgs -> In b imgs -> targetDigest a = targetDigest b) ->
      exists img, resolveImage eng store refOrID platform = (img, None) /\ In img imgs)
  /\ ((forall img, In img imgs -> Name img <> TagNameOnly eng parsed) ->
      (exists a b, In a imgs /\ In b imgs /\ targetDigest a <> targetDigest b) ->
      resolveImage eng store refOrID platform
      = (emptyImage, Some (NotFound (ErrNew "ambiguous reference")))).
Proof.
  intros Hshort Hparse Hlist Hlen.
  unfold resolveImage. rewrite Hparse, Hshort, Hlist.
  destruct imgs as [|img0 others]; [simpl in Hlen; lia|].
  assert (Hmany : (1 <? length (img0 :: others)) = true) by (apply Nat.ltb_lt; lia).
  rewrite Hmany.
  split; [|split].
  - intros [i [Hi Hname]].
    destruct (scanImages_hit _ _ (empty_set Digest) _ Hi Hname) as [img E].
    rewrite E. exists img. split; [reflexivity|].
    now apply scanImages_found in E.
  - intros Hnames Hsame.
    destruct (scanImages_total _ _ (empty_set Digest) Hnames) as [ds E].
    rewrite E. apply scanImages_digests in E; [|constructor].
    destruct E as [_ [Hnd Hin]].
    destruct (1 <? length ds) eqn:Hds.
    + exfalso. apply Nat.ltb_lt in Hds.
      apply (two_distinct_length _ Hnd) in Hds. destruct Hds as [a [b [Ha [Hb Hab]]]].
      apply Hin in Ha, Hb.
      destruct Ha as [[]|[ia [Hia <-]]], Hb as [[]|[ib [Hib <-]]].
      apply Hab. now apply Hsame.
    + exists img0. split; [reflexivity | now left].
  - intros Hnames [a [b [Ha [Hb Hab]]]].
    destruct (scanImages_total _ _ (empty_set Digest) Hnames) as [ds E].
    rewrite E. apply scanImages_digests in E; [|constructor].
    destruct E as [_ [Hnd Hin]].
    assert (Hds : (1 <? length ds) = true).
    { apply Nat.ltb_lt, (two_distinct_length _ Hnd).
      exists (targetDigest a), (targetDigest b).
      repeat split; [apply Hin; right; eauto | apply Hin; right; eauto | assumption]. }
    now rewrite Hds.
Qed.

Lemma resolveImage_shortID_several_witness :
  (exists img, resolveImage plainEngine [imgNamed; imgByDigest] "abcd" None = (img, None)
               /\ In img [imgNamed; imgByDigest] /\ Name img = "abcd:latest")
  /\ resolveImage plainEngine [imgByDigest; imgByDigest2] "abcd" None
     = (emptyImage, Some (NotFound (ErrNew "ambiguous reference"))).
Proof.
  split.
  - apply (resolveImage_shortID_several plainEngine [imgNamed; imgByDigest]
             "abcd" "abcd" None [imgNamed; imgByDigest]);
      [reflexivity | reflexivity | reflexivity | simpl; lia |].
    exists imgNamed. split; [now left | reflexivity].
  - apply (resolveImage_shortID_several plainEngine [imgByDigest; imgByDigest2]
             "abcd" "abcd" None [imgByDigest; imgByDigest2]);
      [reflexivity | reflexivity | reflexivity | simpl; lia | |].
    + intros img [<-|[<-|[]]]; discriminate.
    + exists imgByDigest, imgByDigest2.
      split; [now left | split; [right; now left | discriminate]].
Defined.

(** Scenarios S1 and S2 on the in-memory engine, and the duplicated-tag
    case: two names for one digest resolve. *)
Example resolveImage_scenarios :
  resolveImage plainEngine [imgNamed; imgByDigest] "abcd" None = (imgNamed, None)
  /\ resolveImage plainEngine [imgByDigest; imgNamed] "abcd" None = (imgNamed, None)
  /\ resolveImage plainEngine [imgByDigest; imgByDigest2] "abcd" None
     = (emptyImage, Some (NotFound (ErrNew "ambiguous reference")))
  /\ resolveImage plainEngine [imgByDigest; imgByDigest'] "abcd" None = (imgByDigest, None).
Proof. repeat split. Qed.

(** ** The platform filter *)

(** C4, as stated, fails, in two ways.  A short-ID resolution returns
    the listed record without looking at the platform constraint: the
    record's only platform is linux/amd64, the constraint is
    linux/arm64, the comparison is strict, and the record is accepted.
    And the lookup by name compares with [platforms.Only], which is not
    strict: a record whose only platform is linux/386 is accepted under
    the constraint linux/amd64. *)
Lemma resolveImage_platform_filter_not_strict :
  (Platforms plainEngine (Target imgByDigest) = Ok [linux_amd64]
   /\ existsb (strictMatch linux_arm64) [linux_amd64] = false
   /\ Only plainEngine = strictMatch
   /\ resolveImage plainEngine [imgByDigest] "abcd" (Some linux_arm64) = (imgByDigest, None))
  /\ (shortID "legacy" = false
      /\ Platforms legacyEngine (Target legacyImage) = Ok [linux_386]
      /\ existsb (strictMatch linux_amd64) [linux_386] = false
      /\ Only legacyEngine = onlyMatch
      /\ resolveImage legacyEngine [legacyImage] "legacy" (Some linux_amd64)
         = (legacyImage, None)).
Proof. repeat split. Qed.

(** C4, amended: a resolution that reaches the lookup by name (the
    reference is not digested and the input is not a short ID), finds
    the record and enumerates its platforms returns the record without
    error iff one of the platforms matches, under strict comparison (os,
    architecture and variant), the constraint itself or one of the
    sub-platforms [subs] that the comparer [platforms.Only] of the
    constraint adds to it; otherwise it fails with NotFound "platform
    <p> not supported".  In particular a strict match of the constraint
    is accepted. *)
Theorem resolveImage_named_platform
    (eng : Engine) (store : Store) (refOrID parsed : string)
    (p : Platform) (img : Image) (imgPlatforms subs : list Platform) :
  ParseAnyReference eng refOrID = Ok (RefNamed parsed) ->
  shortID refOrID = false ->
  Get eng store (TagNameOnly eng parsed) = Ok img ->
  Platforms eng (Target img) = Ok imgPlatforms ->
  (forall q, Only eng p q = strictMatch p q || existsb (fun v => strictMatch v q) subs) ->
  (resolveImage eng store refOrID (Some p) = (img, None) <->
   exists q, In q imgPlatforms
             /\ (strictMatch p q = true \/ exists v, In v subs /\ strictMatch v q = true))
  /\ ((forall q, In q imgPlatforms ->
                 strictMatch p q = false
                 /\ forall v, In v subs -> strictMatch v q = false) ->
      resolveImage eng store refOrID (Some p)
      = (img, Some (NotFound (ErrNew
           ("platform " ++ Format eng p ++ " not supported")%string))))
  /\ ((exists q, In q imgPlatforms /\ strictMatch p q = true) ->
      resolveImage eng store refOrID (Some p) = (img, None)).
Proof.
  intros Hparse Hshort Hget Hplat Honly.
  assert (Hmatch : forall q, Only eng p q = true <->
                             strictMatch p q = true
                             \/ exists v, In v subs /\ strictMatch v q = true).
  { intros q. rewrite Honly, orb_true_iff, existsb_exists. tauto. }
  unfold resolveImage. rewrite Hparse, Hshort, Hget, Hplat.
  destruct (existsb (Only eng p) imgPlatforms) eqn:E.
  - apply existsb_exists in E. destruct E as [q [Hq Hm]].
    split; [|split].
    + split; [intros _|reflexivity]. exists q. split; [assumption | now apply Hmatch].
    + intros Hnone. destruct (Hnone q Hq) as [Hs Hsub].
      apply Hmatch in Hm. destruct Hm as [Hm|[v [Hv Hm]]].
      * congruence.
      * rewrite (Hsub v Hv) in Hm. discriminate.
    + reflexivity.
  - assert (Hno : forall q, In q imgPlatforms -> Only eng p q = false).
    { intros q Hq. destruct (Only eng p q) eqn:Hm; [|reflexivity].
      assert (existsb (Only eng p) imgPlatforms = true)
        by (apply existsb_exists; eauto).
      congruence. }
    split; [|split].
    + split; [discriminate|]. intros [q [Hq Hm]].
      apply Hmatch in Hm. rewrite (Hno q Hq) in Hm. discriminate.
    + reflexivity.
    + intros [q [Hq Hm]].
      assert (Only eng p q = true) by (apply Hmatch; now left).
      rewrite (Hno q Hq) in H. discriminate.
Qed.

Lemma resolveImage_named_platform_witness :
  (resolveImage legacyEngine [legacyImage] "legacy" (Some linux_amd64) = (legacyImage, None) <->
   exists q, In q [linux_386]
             /\ (strictMatch linux_amd64 q = true
                 \/ exists v, In v (subPlatforms linux_amd64) /\ strictMatch v q = true))
  /\ ((forall q, In q [linux_386] ->
                 strictMatch linux_amd64 q = false
                 /\ forall v, In v (subPlatforms linux_amd64) -> strictMatch v q = false) ->
      resolveImage legacyEngine [legacyImage] "legacy" (Some linux_amd64)
      = (legacyImage, Some (NotFound (ErrNew "platform linux/amd64 not supported"))))
  /\ ((exists q, In q [linux_386] /\ strictMatch linux_amd64 q = true) ->
      resolveImage legacyEngine [legacyImage] "legacy" (Some linux_amd64)
      = (legacyImage, None)).
Proof.
  apply (resolveImage_named_platform legacyEngine [legacyImage] "legacy" "legacy"
           linux_amd64 legacyImage [linux_386] (subPlatforms linux_amd64));
    try reflexivity.
Defined.

(** ** Export planning *)

Section ProbeFacts.
Variable eng : Engine.

Lemma probeChildren_probed (children : list Descriptor) (missing present : list Platform) :
  (forall c, In c children -> IsManifestType eng (MediaType c) = true ->
             DescPlatform c <> None /\ probed eng c) ->
  probeChildren eng children missing present
  = Returned (Ok (missing ++ missingOf eng children, present ++ presentOf eng children)).
Proof.
  revert missing present.
  induction children as [|c children IH]; intros missing present Hall; simpl.
  - now rewrite !app_nil_r.
  - assert (Hrest : forall c', In c' children ->
              IsManifestType eng (MediaType c') = true ->
              DescPlatform c' <> None /\ probed eng c')
      by (intros c' Hc'; apply Hall; now right).
    destruct (IsManifestType eng (MediaType c)) eqn:Hm; [|now apply IH].
    destruct (Hall c (or_introl eq_refl) Hm) as [Hp Hprobe].
    destruct (DescPlatform c) as [p|]; [|congruence].
    unfold probed in Hprobe.
    destruct (ReaderAt eng c) as [e|] eqn:Hr; simpl in *.
    + destruct Hprobe as [Hprobe|Hprobe]; [discriminate|]. rewrite Hprobe.
      rewrite IH by assumption. now rewrite <- !app_assoc.
    + rewrite IH by assumption. now rewrite <- !app_assoc.
Qed.

Lemma probeChildren_all_present (children : list Descriptor) (missing present : list Platform) :
  (forall c, In c children -> IsManifestType eng (MediaType c) = true ->
             ReaderAt eng c = None) ->
  probeChildren eng children missing present = Panicked
  \/ exists present', probeChildren eng children missing present
                      = Returned (Ok (missing, present')).
Proof.
  revert present.
  induction children as [|c children IH]; intros present Hall; simpl.
  - right. eauto.
  - assert (Hrest : forall c', In c' children ->
              IsManifestType eng (MediaType c') = true -> ReaderAt eng c' = None)
      by (intros c' Hc'; apply Hall; now right).
    destruct (IsManifestType eng (MediaType c)) eqn:Hm; [|now apply IH].
    rewrite (Hall c (or_introl eq_refl) Hm). simpl.
    destruct (DescPlatform c); [now apply IH | now left].
Qed.

Lemma probeChildren_no_panic (children : list Descriptor) (missing present : list Platform) :
  (forall c, In c children -> IsManifestType eng (MediaType c) = true ->
             DescPlatform c <> None) ->
  probeChildren eng children missing present <> Panicked.
Proof.
  revert missing present.
  induction children as [|c children IH]; intros missing present Hall; simpl.
  - discriminate.
  - assert (Hrest : forall c', In c' children ->
              IsManifestType eng (MediaType c') = true -> DescPlatform c' <> None)
      by (intros c' Hc'; apply Hall; now right).
    destruct (IsManifestType eng (MediaType c)) eqn:Hm; [|now apply IH].
    specialize (Hall c (or_introl eq_refl) Hm).
    destruct (DescPlatform c) as [p|]; [|congruence].
    destruct (IsNotFound (ReaderAt eng c)); [now apply IH|].
    destruct (ReaderAt eng c); [discriminate | now apply IH].
Qed.

Lemma probeChildren_nil_platform (pre post : list Descriptor) (c : Descriptor)
    (missing present : list Platform) :
  (forall c', In c' pre -> IsManifestType eng (MediaType c') = true -> probed eng c') ->
  IsManifestType eng (MediaType c) = true ->
  DescPlatform c = None ->
  probed eng c ->
  probeChildren eng (pre ++ c :: post) missing present = Panicked.
Proof.
  intros Hpre Hm Hp Hprobe. revert missing present.
  induction pre as [|c' pre IH]; intros missing present; simpl.
  - rewrite Hm, Hp. destruct Hprobe as [Hr|Hr]; rewrite Hr; reflexivity.
  - assert (Hrest : forall d, In d pre ->
              IsManifestType eng (MediaType d) = true -> probed eng d)
      by (intros d Hd; apply Hpre; now right).
    destruct (IsManifestType eng (MediaType c')) eqn:Hm'; [|now apply IH].
    destruct (Hpre c' (or_introl eq_refl) Hm') as [Hr|Hr]; rewrite Hr; simpl.
    + destruct (DescPlatform c'); [now apply IH | reflexivity].
    + destruct (DescPlatform c'); [now apply IH | reflexivity].
Qed.

Lemma probeChildren_ok_inv (children : list Descriptor)
    (missing present missing' present' : list Platform) :
  probeChildren eng children missing present = Returned (Ok (missing', present')) ->
  forall c, In c children -> IsManifestType eng (MediaType c) = true ->
            DescPlatform c <> None /\ probed eng c.
Proof.
  revert missing present.
  induction children as [|d children IH]; intros missing present Hok c Hc Hm.
  - destruct Hc.
  - simpl in Hok. unfold probed.
    destruct Hc as [->|Hc].
    + rewrite Hm in Hok.
      destruct (ReaderAt eng c) as [e|]; simpl in Hok.
      * destruct (isNotFoundErr e) eqn:Hnf; [|discriminate].
        destruct (DescPlatform c); [|discriminate].
        split; [discriminate | right; exact Hnf].
      * destruct (DescPlatform c); [|discriminate].
        split; [discriminate | now left].
    + destruct (IsManifestType eng (MediaType d)); [|now apply (IH _ _ Hok)].
      destruct (IsNotFound (ReaderAt eng d)).
      * destruct (DescPlatform d); [now apply (IH _ _ Hok) | discriminate].
      * destruct (ReaderAt eng d); [discriminate|].
        destruct (DescPlatform d); [now apply (IH _ _ Hok) | discriminate].
Qed.

Lemma presentOf_spec (children : list Descriptor) (p : Platform) :
  In p (presentOf eng children) <->
  exists c, In c children /\ IsManifestType eng (MediaType c) = true
            /\ ReaderAt eng c = None /\ DescPlatform c = Some p.
Proof.
  unfold presentOf. rewrite in_flat_map. split.
  - intros [c [Hc Hin]]. exists c.
    destruct (IsManifestType eng (MediaType c)); [|destruct Hin].
    destruct (ReaderAt eng c); [destruct Hin|].
    destruct (DescPlatform c) as [q|]; [|destruct Hin].
    destruct Hin as [->|[]]. auto.
  - intros [c [Hc [Hm [Hr Hp]]]]. exists c. rewrite Hm, Hr, Hp. simpl; auto.
Qed.

Lemma missingOf_nonempty (children : list Descriptor) (c : Descriptor) :
  In c children -> IsManifestType eng (MediaType c) = true ->
  DescPlatform c <> None -> IsNotFound (ReaderAt eng c) = true ->
  (length (missingOf eng children) =? 0) = false.
Proof.
  intros Hc Hm Hp Hr.
  destruct (DescPlatform c) as [p|] eqn:Ep; [|congruence].
  assert (Hin : In p (missingOf eng children)).
  { unfold missingOf. apply in_flat_map. exists c. rewrite Hm, Ep, Hr. simpl; auto. }
  destruct (missingOf eng children); [destruct Hin | reflexivity].
Qed.
End ProbeFacts.

(** C5: when the resolved target is not an index, or is an index all of
    whose manifest children have their blob, [optForImageExport] leaves
    the engine as it was (no temporary image, no conversion), returns no
    temporary image, and the only instruction it can emit is
    export-by-name on the original image; it does emit it whenever the
    record's name parses and the manifest children carry a platform. *)
Theorem optForImageExport_all_present
    (eng : Engine) (arch : Archiver) (name : string) (w : World) (img : Image) :
  resolveImage eng (images w) name None = (img, None) ->
  allManifestsPresent eng (Target img) ->
  snd (optForImageExport eng arch name w) = w
  /\ (forall opt tmp err,
        fst (optForImageExport eng arch name w) = Returned (opt, tmp, err) ->
        tmp = None /\ forall o, opt = Some o -> o = WithImage (Name img))
  /\ (forall ref,
        ParseNamed eng (Name img) = Ok ref ->
        manifestsHavePlatform eng (Target img) ->
        fst (optForImageExport eng arch name w)
        = Returned (Some (WithImage (Name img)), None, None)).
Proof.
  intros Hres Hall. unfold optForImageExport. rewrite Hres.
  destruct (ParseNamed eng (Name img)) as [ref|perr] eqn:Hparse.
  2:{ simpl. split; [reflexivity|]. split.
      - intros opt tmp err [= <- <- <-]. split; [reflexivity | discriminate].
      - discriminate. }
  destruct (IsIndexType eng (MediaType (Target img))) eqn:Hidx.
  2:{ simpl. split; [reflexivity|]. split.
      - intros opt tmp err [= <- <- <-]. split; [reflexivity | congruence].
      - reflexivity. }
  destruct (Hall Hidx) as [children [Hch Hpresent]]. rewrite Hch.
  destruct (probeChildren_all_present eng children [] [] Hpresent) as [Hp|[present' Hp]].
  - rewrite Hp. simpl. split; [reflexivity|]. split.
    + discriminate.
    + intros ref' _ Hplat. exfalso.
      apply (probeChildren_no_panic eng children [] []); [|assumption].
      now apply (Hplat Hidx children Hch).
  - rewrite Hp. simpl. split; [reflexivity|]. split.
    + intros opt tmp err [= <- <- <-]. split; [reflexivity | congruence].
    + reflexivity.
Qed.

Lemma optForImageExport_all_present_witness :
  fst (optForImageExport (indexEngine [amd64Manifest; arm64Manifest] (fun _ => None))
         memArchiver "foo:tag" (world0 [fooTag]))
  = Returned (Some (WithImage "foo:tag"), None, None).
Proof.
  refine (proj2 (proj2 (optForImageExport_all_present
            (indexEngine [amd64Manifest; arm64Manifest] (fun _ => None))
            memArchiver "foo:tag" (world0 [fooTag]) fooTag eq_refl _))
            "foo:tag" eq_refl _).
  - intros _. exists [amd64Manifest; arm64Manifest]. split; reflexivity.
  - intros _ children [= <-] c [<-|[<-|[]]] _; discriminate.
Defined.

(** C6: the resolved target is an index with a manifest child whose
    blob is not found.  Whenever [optForImageExport] then returns
    without error, it has created a temporary image in the store; the
    image's name is the source reference string followed by
    [-tmp-export] and a fresh UUID; its target is what the converter
    derives from the source under the platforms of exactly the manifest
    children whose blob is present; and the instruction is
    export-by-manifest of that target under the original reference
    string.  It does return so when the record's name parses, the
    manifest children carry a platform, their probes answer present or
    not-found, and the conversion succeeds. *)
Theorem optForImageExport_missing_manifest
    (eng : Engine) (arch : Archiver) (name : string) (w : World) (img : Image)
    (children : list Descriptor) :
  resolveImage eng (images w) name None = (img, None) ->
  IsIndexType eng (MediaType (Target img)) = true ->
  Children eng (Target img) = Ok children ->
  (exists c, In c children /\ IsManifestType eng (MediaType c) = true
             /\ IsNotFound (ReaderAt eng c) = true) ->
  (forall opt tmp w',
      optForImageExport eng arch name w = (Returned (opt, tmp, None), w') ->
      exists srcRef target,
        ParseNamed eng (Name img) = Ok srcRef
        /\ convert arch (images w)
             (srcRef ++ "-tmp-export" ++ NewString arch (drawn w))%string srcRef
             (presentOf eng children) = ConvTarget target
        /\ opt = Some (WithManifest target srcRef)
        /\ tmp = Some (mkImage (srcRef ++ "-tmp-export" ++ NewString arch (drawn w))%string
                               target)
        /\ In (mkImage (srcRef ++ "-tmp-export" ++ NewString arch (drawn w))%string target)
              (images w'))
  /\ (forall srcRef target,
        ParseNamed eng (Name img) = Ok srcRef ->
        (forall c, In c children -> IsManifestType eng (MediaType c) = true ->
                   DescPlatform c <> None /\ probed eng c) ->
        convert arch (images w)
          (srcRef ++ "-tmp-export" ++ NewString arch (drawn w))%string srcRef
          (presentOf eng children) = ConvTarget target ->
        let tmp := mkImage (srcRef ++ "-tmp-export" ++ NewString arch (drawn w))%string
                           target in
        optForImageExport eng arch name w
        = (Returned (Some (WithManifest target srcRef), Some tmp, None),
           mkWorld (tmp :: removeName (Name tmp) (images w))
                   (events w ++ [EvConvert (Name tmp) srcRef (presentOf eng children)
                                           (Some tmp)])
                   (S (drawn w))))
  /\ (forall p, In p (presentOf eng children) <->
                exists c, In c children /\ IsManifestType eng (MediaType c) = true
                          /\ ReaderAt eng c = None /\ DescPlatform c = Some p).
Proof.
  intros Hres Hidx Hch [c [Hc [Hm Hnf]]].
  split; [|split; [|apply presentOf_spec]].
  - intros opt tmp w'. unfold optForImageExport. rewrite Hres.
    destruct (ParseNamed eng (Name img)) as [srcRef|e]; [|discriminate].
    rewrite Hidx, Hch.
    destruct (probeChildren eng children [] []) as [[[missing present]|e]|] eqn:Hprobe;
      [|discriminate|discriminate].
    pose proof (probeChildren_ok_inv eng children [] [] missing present Hprobe) as Hall.
    rewrite (probeChildren_probed eng children [] [] Hall) in Hprobe.
    injection Hprobe as <- <-. simpl app.
    rewrite (missingOf_nonempty eng children c Hc Hm (proj1 (Hall c Hc Hm)) Hnf).
    unfold bind, uuidNewString, Convert. cbn [images drawn].
    destruct (convert arch _ _ _ _) as [target|partial e] eqn:Hconv;
      cbn [fst snd images events logEvent setImages ret]; [|discriminate].
    intros [= <- <- <-]. exists srcRef, target. simpl. auto 6.
  - intros srcRef target Hparse Hall Hconv tmp.
    unfold optForImageExport. rewrite Hres, Hparse, Hidx, Hch.
    rewrite (probeChildren_probed eng children [] [] Hall). simpl app.
    rewrite (missingOf_nonempty eng children c Hc Hm (proj1 (Hall c Hc Hm)) Hnf).
    unfold bind, uuidNewString, Convert. cbn [images drawn].
    rewrite Hconv. reflexivity.
Qed.

Lemma optForImageExport_missing_manifest_witness :
  optForImageExport (indexEngine [amd64Manifest; arm64Manifest] arm64Missing)
    memArchiver "foo:tag" (world0 [fooTag])
  = (Returned (Some (WithManifest (derivedIndex [linux_amd64]) "foo:tag"),
               Some (mkImage "foo:tag-tmp-exportuuid0" (derivedIndex [linux_amd64])),
               None),
     mkWorld [mkImage "foo:tag-tmp-exportuuid0" (derivedIndex [linux_amd64]); fooTag]
             [EvConvert "foo:tag-tmp-exportuuid0" "foo:tag" [linux_amd64]
                (Some (mkImage "foo:tag-tmp-exportuuid0" (derivedIndex [linux_amd64])))]
             1).
Proof.
  refine (proj1 (proj2 (optForImageExport_missing_manifest
            (indexEngine [amd64Manifest; arm64Manifest] arm64Missing)
            memArchiver "foo:tag" (world0 [fooTag]) fooTag
            [amd64Manifest; arm64Manifest] eq_refl eq_refl eq_refl _))
            "foo:tag" (derivedIndex [linux_amd64]) eq_refl _ eq_refl).
  - exists arm64Manifest. split; [right; now left | split; reflexivity].
  - intros c [<-|[<-|[]]] _.
    + split; [discriminate | now left].
    + split; [discriminate | now right].
Defined.

(** [optForImageExport] never panics when every manifest child that it
    can meet carries a platform. *)
Lemma optForImageExport_total
    (eng : Engine) (arch : Archiver) (name : string) (w : World) :
  (forall target children c,
      Children eng target = Ok children -> In c children ->
      IsManifestType eng (MediaType c) = true -> DescPlatform c <> None) ->
  fst (optForImageExport eng arch name w) <> Panicked.
Proof.
  intros Hplat. unfold optForImageExport.
  destruct (resolveImage eng (images w) name None) as [img [e|]]; [discriminate|].
  destruct (ParseNamed eng (Name img)) as [ref|e]; [|discriminate].
  destruct (IsIndexType eng (MediaType (Target img))); [|discriminate].
  destruct (Children eng (Target img)) as [children|e] eqn:Hch; [|discriminate].
  pose proof (probeChildren_no_panic eng children [] []
                (fun c Hc Hm => Hplat _ _ c Hch Hc Hm)) as Hnp.
  destruct (probeChildren eng children [] []) as [[[missing present]|e]|];
    [|discriminate|congruence].
  destruct (length missing =? 0); [discriminate|].
  unfold bind, uuidNewString, Convert. cbn [images drawn].
  destruct (convert arch _ _ _ _); discriminate.
Qed.

(** C10: on an index target, [optForImageExport] reads the platform of
    every manifest child it probes without checking it.  When every
    manifest child carries a platform the call does not panic.  When
    some manifest child has no platform, and the probes answer present
    or not-found, the call panics on the dereference of the nil
    platform and returns nothing; more precisely it panics as soon as
    the probes of such a child and of the manifest children before it
    have answered. *)
Theorem optForImageExport_nil_platform
    (eng : Engine) (arch : Archiver) (name : string) (w : World) (img : Image)
    (ref : string) (children : list Descriptor) :
  resolveImage eng (images w) name None = (img, None) ->
  ParseNamed eng (Name img) = Ok ref ->
  IsIndexType eng (MediaType (Target img)) = true ->
  Children eng (Target img) = Ok children ->
  ((forall c, In c children -> IsManifestType eng (MediaType c) = true ->
              DescPlatform c <> None) ->
   fst (optForImageExport eng arch name w) <> Panicked)
  /\ ((forall c, In c children -> IsManifestType eng (MediaType c) = true -> probed eng c) ->
      (exists c, In c children /\ IsManifestType eng (MediaType c) = true
                 /\ DescPlatform c = None) ->
      optForImageExport eng arch name w = (Panicked, w))
  /\ (forall pre c post,
        children = pre ++ c :: post ->
        IsManifestType eng (MediaType c) = true ->
        DescPlatform c = None ->
        probed eng c ->
        (forall c', In c' pre -> IsManifestType eng (MediaType c') = true -> probed eng c') ->
        optForImageExport eng arch name w = (Panicked, w)).
Proof.
  intros Hres Hparse Hidx Hch.
  assert (Hreach : forall pre c post,
             children = pre ++ c :: post ->
             IsManifestType eng (MediaType c) = true ->
             DescPlatform c = None ->
             probed eng c ->
             (forall c', In c' pre -> IsManifestType eng (MediaType c') = true ->
                         probed eng c') ->
             optForImageExport eng arch name w = (Panicked, w)).
  { intros pre c post -> Hm Hp Hprobe Hpre.
    unfold optForImageExport. rewrite Hres, Hparse, Hidx, Hch.
    now rewrite (probeChildren_nil_platform eng pre post c [] [] Hpre Hm Hp Hprobe). }
  split; [|split; [|exact Hreach]].
  - intros Hplat. unfold optForImageExport. rewrite Hres, Hparse, Hidx, Hch.
    pose proof (probeChildren_no_panic eng children [] [] Hplat) as Hnp.
    destruct (probeChildren eng children [] []) as [[[missing present]|e]|];
      [|discriminate|congruence].
    destruct (length missing =? 0); [discriminate|].
    unfold bind, uuidNewString, Convert. cbn [images drawn].
    destruct (convert arch _ _ _ _); discriminate.
  - intros Hprobed [c [Hc [Hm Hp]]].
    destruct (in_split c children Hc) as [pre [post Hsplit]].
    apply (Hreach pre c post Hsplit Hm Hp (Hprobed c Hc Hm)).
    intros c' Hc'. apply Hprobed. rewrite Hsplit. apply in_or_app. now left.
Qed.

Lemma optForImageExport_nil_platform_witness :
  optForImageExport (indexEngine [amd64Manifest; barePlatformManifest] (fun _ => None))
    memArchiver "foo:tag" (world0 [fooTag])
  = (Panicked, world0 [fooTag]).
Proof.
  refine (proj1 (proj2 (optForImageExport_nil_platform
            (indexEngine [amd64Manifest; barePlatformManifest] (fun _ => None))
            memArchiver "foo:tag" (world0 [fooTag]) fooTag "foo:tag"
            [amd64Manifest; barePlatformManifest] eq_refl eq_refl eq_refl eq_refl)) _ _).
  - intros c _ _. now left.
  - exists barePlatformManifest. split; [right; now left | split; reflexivity].
Defined.

(** A probe that fails with an error other than a not-found is
    returned before the platform of the child is read. *)
Example optForImageExport_probe_error_first :
  DescPlatform barePlatformManifest = None
  /\ fst (optForImageExport (indexEngine [barePlatformManifest] blobsUnreadable)
            memArchiver "foo:tag" (world0 [fooTag]))
     = Returned (None, None, Some (ErrNew "unavailable")).
Proof. split; reflexivity. Qed.

(** ** Temporary images of an export *)

Section ExportFacts.
Variable eng : Engine.
Variable arch : Archiver.

Lemma tmpNames_app (evs evs' : list Event) :
  tmpNames (evs ++ evs') = tmpNames evs ++ tmpNames evs'.
Proof. apply flat_map_app. Qed.

(** One call of [optForImageExport] logs conversions only, and the
    temporary image it returns is the one its conversion came back
    with. *)
Lemma optForImageExport_events (name : string) (w : World) :
  exists convs,
    events (snd (optForImageExport eng arch name w)) = events w ++ convs
    /\ Forall isConvert convs
    /\ match fst (optForImageExport eng arch name w) with
       | Returned (_, Some tmp, _) => tmpNames convs = [Name tmp]
       | Returned (_, None, _) => tmpNames convs = []
       | Panicked => tmpNames convs = []
       end.
Proof.
  assert (Hnil : forall (o : option ExportOpt) (e : option error),
             exists convs, events w = events w ++ convs /\ Forall isConvert convs
                           /\ tmpNames convs = [])
    by (intros; exists []; rewrite app_nil_r; auto).
  unfold optForImageExport.
  destruct (resolveImage eng (images w) name None) as [img [e|]];
    [exact (Hnil None None)|].
  destruct (ParseNamed eng (Name img)) as [ref|e]; [|exact (Hnil None None)].
  destruct (IsIndexType eng (MediaType (Target img))); [|exact (Hnil None None)].
  destruct (Children eng (Target img)) as [children|e]; [|exact (Hnil None None)].
  destruct (probeChildren eng children [] []) as [[[missing present]|e]|];
    [|exact (Hnil None None)|exact (Hnil None None)].
  destruct (length missing =? 0); [exact (Hnil None None)|].
  unfold bind, uuidNewString, Convert. cbn [images drawn].
  destruct (convert arch _ _ _ _) as [target|partial e];
    cbn [fst snd events logEvent setImages ret].
  - eexists. split; [reflexivity|]. split.
    + constructor; [|constructor]. unfold isConvert; eauto.
    + reflexivity.
  - eexists. split; [reflexivity|]. split.
    + constructor; [|constructor]. unfold isConvert; eauto.
    + destruct partial; reflexivity.
Qed.

(** The loop of [ExportImage]: conversions, then at most the archive
    write; every temporary image is on the stack of deferred
    deletions, the latest first. *)
Lemma exportBody_events (names : list string) :
  forall (opts : list ExportOpt) (deferred : list string) (w : World),
  exists convs tail,
    events (snd (exportBody eng arch names opts deferred w)) = events w ++ convs ++ tail
    /\ Forall isConvert convs
    /\ (tail = [] \/ exists opts', tail = [EvExport opts'])
    /\ snd (fst (exportBody eng arch names opts deferred w))
       = rev (tmpNames convs) ++ deferred.
Proof.
  induction names as [|imageRef rest IH]; intros opts deferred w.
  - exists [], [EvExport opts]. simpl. repeat split; eauto.
  - simpl.
    destruct (optForImageExport_events imageRef w) as [convs [Hev [Hconv Htmp]]].
    destruct (optForImageExport eng arch imageRef w) as [[[[newOpt tmpImage] err]|] w'];
      simpl in Hev, Htmp.
    + set (deferred' := match tmpImage with
                        | Some tmp => Name tmp :: deferred
                        | None => deferred
                        end).
      assert (Hdef : deferred' = rev (tmpNames convs) ++ deferred)
        by (subst deferred'; destruct tmpImage; rewrite Htmp; reflexivity).
      destruct err as [e|].
      * exists convs, []. simpl. rewrite app_nil_r. auto.
      * match goal with
        | |- context [exportBody eng arch rest ?o deferred' w'] =>
            destruct (IH o deferred' w') as [convs' [tail [Hev' [Hconv' [Htail Hdef']]]]]
        end.
        exists (convs ++ convs'), tail. repeat split.
        -- rewrite Hev', Hev. now rewrite <- !app_assoc.
        -- now apply Forall_app.
        -- assumption.
        -- rewrite Hdef', Hdef, tmpNames_app, rev_app_distr. now rewrite app_assoc.
    + exists convs, []. simpl. rewrite app_nil_r, Htmp. auto.
Qed.

Lemma runDeferred_events (deferred : list string) (w : World) :
  events (runDeferred arch deferred w) = events w ++ map EvDelete deferred.
Proof.
  revert w; induction deferred as [|name older IH]; intros w; simpl.
  - now rewrite app_nil_r.
  - rewrite IH. unfold Delete.
    destruct (deleteErr arch (images w) name); simpl; now rewrite <- app_assoc.
Qed.

Lemma removeName_In (name : string) (st : Store) (img : Image) :
  In img (removeName name st) <-> In img st /\ Name img <> name.
Proof.
  unfold removeName. rewrite filter_In, negb_true_iff.
  destruct (String.eqb_spec (Name img) name); intuition congruence.
Qed.

(** When the deletions succeed, what is left of the store has none of
    the deleted names. *)
Lemma runDeferred_images (deferred : list string) (w : World) :
  (forall st name, In name deferred -> deleteErr arch st name = None) ->
  forall img, In img (images (runDeferred arch deferred w)) ->
              In img (images w) /\ ~ In (Name img) deferred.
Proof.
  revert w; induction deferred as [|name older IH]; intros w Hok img; simpl.
  - auto.
  - intros Hin. apply IH in Hin; [|intros st n Hn; apply Hok; now right].
    destruct Hin as [Hin Hnot]. unfold Delete in Hin.
    rewrite (Hok (images w) name (or_introl eq_refl)) in Hin. simpl in Hin.
    apply removeName_In in Hin. destruct Hin as [Hin Hne].
    split; [assumption|]. intros [Heq|Hold]; [congruence | contradiction].
Qed.
End ExportFacts.

(** C7: every run of [ExportImage], whatever its outcome, logs the
    conversions that create the temporary images, then at most the
    archive write, then one deletion per temporary image, in reverse
    order of creation; and when the engine carries out these deletions,
    no record of the store that is left bears a temporary image's
    name. *)
Theorem ExportImage_deletes_temporaries
    (eng : Engine) (arch : Archiver) (names : list string) (w : World) :
  exists convs tail,
    events (snd (ExportImage eng arch names w))
    = events w ++ convs ++ tail ++ map EvDelete (rev (tmpNames convs))
    /\ Forall isConvert convs
    /\ (tail = [] \/ exists opts, tail = [EvExport opts])
    /\ ((forall st name, In name (tmpNames convs) -> deleteErr arch st name = None) ->
        forall img, In img (images (snd (ExportImage eng arch names w))) ->
                    ~ In (Name img) (tmpNames convs)).
Proof.
  unfold ExportImage.
  destruct (exportBody_events eng arch names baseOpts [] w)
    as [convs [tail [Hev [Hconv [Htail Hdef]]]]].
  destruct (exportBody eng arch names baseOpts [] w) as [[o deferred] w'].
  simpl in Hev, Hdef. rewrite app_nil_r in Hdef. subst deferred.
  exists convs, tail. simpl. repeat split; auto.
  - rewrite runDeferred_events, Hev. now rewrite <- !app_assoc.
  - intros Hok img Hin.
    apply runDeferred_images in Hin.
    + destruct Hin as [_ Hnot]. now rewrite <- in_rev in Hnot.
    + intros st name Hn. apply Hok. now apply in_rev.
Qed.

Lemma ExportImage_deletes_temporaries_witness :
  exists convs tail,
    events (snd (ExportImage (indexEngine [amd64Manifest; arm64Manifest] arm64Missing)
                   memArchiver ["foo:tag"] (world0 [fooTag])))
    = events (world0 [fooTag]) ++ convs ++ tail ++ map EvDelete (rev (tmpNames convs))
    /\ Forall isConvert convs
    /\ (tail = [] \/ exists opts, tail = [EvExport opts])
    /\ ((forall st name, In name (tmpNames convs) -> deleteErr memArchiver st name = None) ->
        forall img,
          In img (images (snd (ExportImage
                                 (indexEngine [amd64Manifest; arm64Manifest] arm64Missing)
                                 memArchiver ["foo:tag"] (world0 [fooTag])))) ->
          ~ In (Name img) (tmpNames convs)).
Proof.
  exact (ExportImage_deletes_temporaries
           (indexEngine [amd64Manifest; arm64Manifest] arm64Missing)
           memArchiver ["foo:tag"] (world0 [fooTag])).
Defined.

(** Scenarios S3 and S4 on the in-memory engine. *)
Example ExportImage_scenarios :
  ExportImage (indexEngine [amd64Manifest; arm64Manifest] (fun _ => None))
    memArchiver ["foo:tag"] (world0 [fooTag])
  = (Returned None,
     mkWorld [fooTag] [EvExport (baseOpts ++ [WithImage "foo:tag"])] 0)
  /\ ExportImage (indexEngine [amd64Manifest; arm64Manifest] arm64Missing)
       memArchiver ["foo:tag"] (world0 [fooTag])
     = (Returned None,
        mkWorld [fooTag]
          [EvConvert "foo:tag-tmp-exportuuid0" "foo:tag" [linux_amd64]
             (Some (mkImage "foo:tag-tmp-exportuuid0" (derivedIndex [linux_amd64])));
           EvExport (baseOpts ++ [WithManifest (derivedIndex [linux_amd64]) "foo:tag"]);
           EvDelete "foo:tag-tmp-exportuuid0"] 1).
Proof. split; reflexivity. Qed.

(** ** Import *)

Section LoadFacts.
Variable imp : Importer.

End LoadFacts.




(** ** Change computation *)

(** The deferred function of [Changes] panics when the call is
    returning an error and the removal of the view succeeds. *)
Lemma removeView_panics (sn : Snapshotter) (rnd : string) (s : Snap) (e : error) :
  err s = Some e -> Remove sn rnd = None ->
  fst (removeView sn rnd s) = Panicked.
Proof.
  intros He Hr. unfold removeView, bind, call, setViews, getErr. simpl.
  now rewrite Hr, He.
Qed.

(** When the removal fails too, the removal error is wrapped around the
    error being returned. *)
Lemma removeView_wraps (sn : Snapshotter) (rnd : string) (s : Snap) (e ue : error) :
  err s = Some e -> Remove sn rnd = Some ue ->
  fst (removeView sn rnd s) = Returned tt
  /\ err (snd (removeView sn rnd s)) = Some (ErrWrap (Error ue) e)
  /\ views (snd (removeView sn rnd s)) = views s.
Proof.
  intros He Hr. unfold removeView, bind, call, setViews, getErr, setErr, ret. simpl.
  now rewrite Hr, He.
Qed.

(** On a call that is returning no error, the outcome of the removal
    becomes the result. *)
Lemma removeView_clean (sn : Snapshotter) (rnd : string) (s : Snap) :
  err s = None ->
  fst (removeView sn rnd s) = Returned tt
  /\ err (snd (removeView sn rnd s)) = Remove sn rnd.
Proof.
  intros He. unfold removeView, bind, call, setViews, getErr, setErr, ret. simpl.
  destruct (Remove sn rnd); simpl; now rewrite He.
Qed.

(** A call whose steps up to the diff succeed and whose diff fails:
    both temporary mounts are unmounted and the removal of the view is
    called, in this order.  When the removal fails its error is wrapped
    around the diff error; when the removal succeeds the call panics. *)
Lemma Changes_diff_error
    (eng : Engine) (cs : Content) (store : Store) (sn : Snapshotter)
    (container : Container) (s : Snap)
    (baseImg : ClientImage) (rich : RichImage) (diffIDs : list Digest)
    (rnd fs root : string) (parent : list Mount) (c : list Change) (de : error) :
  getImage eng cs store (ConfigImage container) (Some (ConfigPlatform container))
  = Ok (baseImg, rich) ->
  BaseRootFS sn baseImg = Ok diffIDs ->
  NewRandom sn = Ok rnd ->
  View sn rnd (ChainID sn diffIDs) = Ok parent ->
  MkdirTemp sn (tmpdirs s) = Ok fs ->
  MkdirTemp sn (S (tmpdirs s)) = Ok root ->
  mountAll sn (ReadonlyMounts sn (fst (Mounts sn (ContainerID container)))) fs = None ->
  mountAll sn parent root = None ->
  ChangesDirs sn fs root = (c, Some de) ->
  calls (snd (Changes eng cs store sn container s))
  = calls s ++ [SMounts (ContainerID container); SGetImage (ConfigImage container);
                SView rnd (ChainID sn diffIDs); SMount fs; SMount root;
                SChangesDirs fs root; SUnmount root; SUnmount fs; SRemove rnd]
  /\ (Remove sn rnd = None ->
      fst (Changes eng cs store sn container s) = Panicked)
  /\ (forall ue, Remove sn rnd = Some ue ->
        exists e, fst (Changes eng cs store sn container s)
                  = Returned (c, Some (ErrWrap (Error ue) e))
                  /\ wraps e de).
Proof.
  intros Hget Hfs Hrnd Hview Htmp1 Htmp2 Hm1 Hm2 Hdiff.
  unfold Changes, changesBody, bind, call, getErr, enter. cbn [err fst snd].
  destruct (Mounts sn (ContainerID container)) as [mounts uerr]. cbn [fst] in Hm1.
  rewrite Hget, Hfs, Hrnd. cbn [calls views mounted tmpdirs changes err].
  rewrite Hview.
  unfold defer, WithTempMount, unmountTemp, removeView, bind, call, setViews, setMounted,
    nextTmpdir, setChanges, setErr, getErr, ret, panic.
  cbn [calls views mounted tmpdirs changes err fst snd].
  rewrite Htmp1. cbn [calls views mounted tmpdirs changes err fst snd]. rewrite Hm1.
  cbn [calls views mounted tmpdirs changes err fst snd].
  rewrite Htmp2. cbn [calls views mounted tmpdirs changes err fst snd]. rewrite Hm2.
  cbn [calls views mounted tmpdirs changes err fst snd].
  rewrite Hdiff. cbn [calls views mounted tmpdirs changes err fst snd].
  destruct (unmount sn root) as [u1|]; cbn [calls views mounted tmpdirs changes err fst snd];
  destruct (unmount sn fs) as [u2|]; cbn [calls views mounted tmpdirs changes err fst snd];
  (split; [destruct (Remove sn rnd); cbn [calls views mounted tmpdirs changes err fst snd];
           rewrite <- !app_assoc; reflexivity |]);
  (split; [intros ->; reflexivity |]);
  intros ue ->; cbn [calls views mounted tmpdirs changes err fst snd];
  eexists; (split; [reflexivity|]); repeat (apply wraps_ErrWrap); apply wraps_refl.
Qed.

(** C1, on the code: the directory diff fails and the removal of the
    view succeeds.  Both mounts are released and the view is removed,
    but [Changes] does not return: its deferred function calls
    [Error] on the nil removal error and panics. *)
Theorem Changes_diff_error_panics :
  Changes plainEngine memContent [baseImage]
    (memSnapshotter (["m"], None) ([], Some diffFailed) None) container1 snap0
  = (Panicked,
     mkSnap [] []
       [SMounts "c1"; SGetImage "base"; SView "view0" "sha256:layer1";
        SMount "/tmp/mount0"; SMount "/tmp/mount1";
        SChangesDirs "/tmp/mount0" "/tmp/mount1";
        SUnmount "/tmp/mount1"; SUnmount "/tmp/mount0"; SRemove "view0"]
       2 []
       (Some (ErrWrap "mount callback failed on /tmp/mount0"
                (ErrWrap "mount callback failed on /tmp/mount1" diffFailed)))).
Proof. reflexivity. Qed.

(** When the removal fails as well, the removal error is wrapped around
    the diff error, as C1 says. *)
Example Changes_diff_error_remove_error :
  exists e,
    fst (Changes plainEngine memContent [baseImage]
           (memSnapshotter (["m"], None) ([], Some diffFailed) (Some removeFailed))
           container1 snap0)
    = Returned ([], Some (ErrWrap (Error removeFailed) e))
    /\ wraps e diffFailed.
Proof.
  exists (ErrWrap "mount callback failed on /tmp/mount0"
            (ErrWrap "mount callback failed on /tmp/mount1" diffFailed)).
  split; [reflexivity|]. apply wraps_ErrWrap, wraps_ErrWrap, wraps_refl.
Qed.

(** The error of [Mounts] is never looked at: [Changes] runs the same
    with the error erased. *)
Lemma Changes_ignores_Mounts_error
    (eng : Engine) (cs : Content) (store : Store) (sn : Snapshotter)
    (container : Container) (s : Snap) :
  Changes eng cs store sn container s
  = Changes eng cs store (withoutMountsError sn) container s.
Proof.
  unfold Changes, changesBody, bind, call, getErr, enter. simpl.
  destruct (Mounts sn (ContainerID container)) as [mounts uerr]. reflexivity.
Qed.

(** C2, on the code: [Mounts] fails, and [Changes] goes on to resolve
    the image, create the view, mount, diff and clean up, and returns
    the changes without error. *)
Theorem Changes_mounts_error_ignored :
  Changes plainEngine memContent [baseImage]
    (memSnapshotter ([], Some mountsFailed) (someChanges, None) None) container1 snap0
  = (Returned (someChanges, None),
     mkSnap [] []
       [SMounts "c1"; SGetImage "base"; SView "view0" "sha256:layer1";
        SMount "/tmp/mount0"; SMount "/tmp/mount1";
        SChangesDirs "/tmp/mount0" "/tmp/mount1";
        SUnmount "/tmp/mount1"; SUnmount "/tmp/mount0"; SRemove "view0"]
       2 someChanges None).
Proof. reflexivity. Qed.

(** * Further properties *)

(** ** Image resolution *)

(** X1: a record that [resolveImage] returns without error is one the
    engine handed over in this call, in a [List] answer or as the [Get]
    answer; and an error comes with the zero record, except for the
    errors of the platform filter, which come with the record found by
    name. *)
Theorem resolveImage_returns_engine_record
    (eng : Engine) (store : Store) (refOrID : string) (platform : option Platform)
    (img : Image) :
  (resolveImage eng store refOrID platform = (img, None) ->
   (exists filters imgs, List eng store filters = Ok imgs /\ In img imgs)
   \/ (exists name, Get eng store name = Ok img))
  /\ (forall e, resolveImage eng store refOrID platform = (img, Some e) ->
        img = emptyImage
        \/ (exists name p, platform = Some p /\ Get eng store name = Ok img)).
Proof.
  unfold resolveImage.
  destruct (ParseAnyReference eng refOrID) as [[d|parsed]|perr].
  - destruct (List eng store [FTargetDigestEq d]) as [[|img0 others]|e] eqn:Hl.
    + split; [discriminate | intros e [= <- _]; now left].
    + split; [|discriminate]. intros [= <-]. left.
      exists [FTargetDigestEq d], (img0 :: others). split; [assumption | now left].
    + split; [discriminate | intros e' [= <- _]; now left].
  - destruct (shortID refOrID).
    + destruct (List eng store _) as [[|img0 others]|e] eqn:Hl.
      * split; [discriminate | intros e [= <- _]; now left].
      * destruct (1 <? length (img0 :: others)).
        -- destruct (scanImages (TagNameOnly eng parsed) (img0 :: others) (empty_set Digest))
             as [found|ds] eqn:Hscan.
           ++ split; [|discriminate]. intros [= <-]. left.
              eexists _, _. split; [exact Hl|]. now apply scanImages_found in Hscan.
           ++ destruct (1 <? length ds).
              ** split; [discriminate | intros e [= <- _]; now left].
              ** split; [|discriminate]. intros [= <-]. left.
                 eexists _, _. split; [exact Hl | now left].
        -- split; [|discriminate]. intros [= <-]. left.
           eexists _, _. split; [exact Hl | now left].
      * split; [discriminate | intros e' [= <- _]; now left].
    + destruct (Get eng store (TagNameOnly eng parsed)) as [found|e] eqn:Hg.
      * destruct platform as [p|].
        -- destruct (Platforms eng (Target found)) as [ps|e].
           ++ destruct (existsb (Only eng p) ps).
              ** split; [|discriminate]. intros [= <-]. right. eauto.
              ** split; [discriminate|]. intros e [= <- _]. right. eauto.
           ++ split; [discriminate|]. intros e' [= <- _]. right. eauto.
        -- split; [|discriminate]. intros [= <-]. right. eauto.
      * destruct (negb (isNotFoundErr e));
          (split; [discriminate | intros e' [= <- _]; now left]).
  - split; [discriminate | intros e [= <- _]; now left].
Qed.

Lemma resolveImage_returns_engine_record_witness :
  (exists filters imgs, List plainEngine [imgNamed; imgByDigest] filters = Ok imgs
                        /\ In imgNamed imgs)
  \/ (exists name, Get plainEngine [imgNamed; imgByDigest] name = Ok imgNamed).
Proof.
  exact (proj1 (resolveImage_returns_engine_record plainEngine [imgNamed; imgByDigest]
                  "abcd" None imgNamed) eq_refl).
Defined.

(** X2: the platform constraint has no effect on a digested or a
    short-ID resolution: the result is the one of the same call without
    constraint. *)
Theorem resolveImage_platform_only_by_name
    (eng : Engine) (store : Store) (refOrID : string) (platform : option Platform) :
  (exists d, ParseAnyReference eng refOrID = Ok (RefDigested d)) \/ shortID refOrID = true ->
  resolveImage eng store refOrID platform = resolveImage eng store refOrID None.
Proof.
  intros H. unfold resolveImage.
  destruct (ParseAnyReference eng refOrID) as [[d|parsed]|perr]; try reflexivity.
  destruct H as [[d H]|H]; [discriminate|]. now rewrite H.
Qed.

Lemma resolveImage_platform_only_by_name_witness :
  resolveImage plainEngine [imgByDigest] "abcd" (Some linux_arm64)
  = resolveImage plainEngine [imgByDigest] "abcd" None.
Proof.
  apply resolveImage_platform_only_by_name. right. reflexivity.
Defined.

(** X3: a short-ID resolution whose [List] call answers fails in two
    cases only, both NotFound: nothing is listed, or no listed record is
    named by the candidate form and the records carry two different
    digests. *)
Theorem resolveImage_shortID_errors
    (eng : Engine) (store : Store) (refOrID parsed : string)
    (platform : option Platform) (imgs : list Image) :
  shortID refOrID = true ->
  ParseAnyReference eng refOrID = Ok (RefNamed parsed) ->
  List eng store [FNameEq (TagNameOnly eng parsed);
                  FTargetDigestRe refOrID (64 - String.length refOrID)] = Ok imgs ->
  (snd (resolveImage eng store refOrID platform) <> None <->
   imgs = []
   \/ ((forall img, In img imgs -> Name img <> TagNameOnly eng parsed)
       /\ exists a b, In a imgs /\ In b imgs /\ targetDigest a <> targetDigest b))
  /\ (forall e, snd (resolveImage eng store refOrID platform) = Some e ->
        e = NotFound (ErrNew "list returned no images")
        \/ e = NotFound (ErrNew "ambiguous reference")).
Proof.
  intros Hshort Hparse Hlist.
  unfold resolveImage. rewrite Hparse, Hshort, Hlist.
  destruct imgs as [|img0 others].
  - simpl. split; [split; [auto | discriminate] | intros e [= <-]; now left].
  - destruct (Nat.ltb_spec 1 (length (img0 :: others))) as [Hmany|Hone].
    + destruct (scanImages (TagNameOnly eng parsed) (img0 :: others) (empty_set Digest))
        as [found|ds] eqn:Hscan.
      * simpl. split; [|discriminate]. split; [congruence|].
        intros [Hnil|[Hnames _]]; [discriminate|].
        apply scanImages_found in Hscan. destruct Hscan as [Hin Hname].
        exfalso. exact (Hnames found Hin Hname).
      * apply scanImages_digests in Hscan; [|constructor].
        destruct Hscan as [Hnames [Hnd Hin]].
        destruct (Nat.ltb_spec 1 (length ds)) as [Hds|Hds]; simpl.
        -- split; [|intros e [= <-]; now right].
           split; [intros _|discriminate]. right. split; [assumption|].
           apply (two_distinct_length _ Hnd) in Hds.
           destruct Hds as [a [b [Ha [Hb Hab]]]]. apply Hin in Ha, Hb.
           destruct Ha as [[]|[ia [Hia <-]]], Hb as [[]|[ib [Hib <-]]]. eauto.
        -- split; [|discriminate]. split; [congruence|].
           intros [Hnil|[_ [a [b [Ha [Hb Hab]]]]]]; [discriminate|].
           exfalso. apply (Nat.lt_irrefl 1). eapply Nat.lt_le_trans; [|exact Hds].
           apply (two_distinct_length _ Hnd).
           exists (targetDigest a), (targetDigest b).
           repeat split; [apply Hin; right; eauto | apply Hin; right; eauto | assumption].
    + simpl. split; [|discriminate]. split; [congruence|].
      intros [Hnil|[_ [a [b [Ha [Hb Hab]]]]]]; [discriminate|].
      destruct others; [|simpl in Hone; lia].
      destruct Ha as [<-|[]], Hb as [<-|[]]. congruence.
Qed.

Lemma resolveImage_shortID_errors_witness :
  snd (resolveImage plainEngine [imgByDigest; imgByDigest2] "abcd" None) <> None.
Proof.
  apply (proj1 (resolveImage_shortID_errors plainEngine [imgByDigest; imgByDigest2]
                  "abcd" "abcd" None [imgByDigest; imgByDigest2]
                  eq_refl eq_refl eq_refl)).
  right. split.
  - intros img [<-|[<-|[]]]; discriminate.
  - exists imgByDigest, imgByDigest2.
    split; [now left | split; [right; now left | discriminate]].
Defined.

(** X4: on the lookup by name, a not-found of the engine's [Get] comes
    back as NotFound "id not found" without the engine's error, and
    every other error of [Get] comes back as it is, whatever the
    platform constraint. *)
Theorem resolveImage_get_error
    (eng : Engine) (store : Store) (refOrID parsed : string)
    (platform : option Platform) (e : error) :
  ParseAnyReference eng refOrID = Ok (RefNamed parsed) ->
  shortID refOrID = false ->
  Get eng store (TagNameOnly eng parsed) = Err e ->
  (isNotFoundErr e = true ->
   resolveImage eng store refOrID platform
   = (emptyImage, Some (NotFound (ErrNew "id not found"))))
  /\ (isNotFoundErr e = false ->
      resolveImage eng store refOrID platform = (emptyImage, Some e))
  /\ (forall e', snd (resolveImage eng store refOrID platform) = Some e' ->
                 (wraps e' e <-> isNotFoundErr e = false)).
Proof.
  intros Hparse Hshort Hget. unfold resolveImage. rewrite Hparse, Hshort, Hget.
  destruct (isNotFoundErr e) eqn:Hnf; simpl.
  - split; [reflexivity|]. split; [discriminate|].
    intros e' [= <-]. split; [|discriminate].
    intros Hw. inversion Hw as [| | ? ? Hw' |]; subst.
    + discriminate.
    + inversion Hw'; subst. discriminate.
  - split; [discriminate|]. split; [reflexivity|].
    intros e' [= <-]. split; [reflexivity | intros _; constructor].
Qed.

Lemma resolveImage_get_error_witness :
  resolveImage plainEngine [] "missing" None
  = (emptyImage, Some (NotFound (ErrNew "id not found"))).
Proof.
  exact (proj1 (resolveImage_get_error plainEngine [] "missing" "missing" None ErrNotFound
                  eq_refl eq_refl eq_refl) eq_refl).
Defined.

(** ** Short identifiers and dangling names *)

Lemma allLowerHex_app (a b : string) :
  allLowerHex (a ++ b) = allLowerHex a && allLowerHex b.
Proof.
  induction a as [|c a IH]; simpl; [reflexivity|].
  now rewrite IH, andb_assoc.
Qed.

Lemma shortID_nonhex (a b : string) (c : ascii) :
  isLowerHex c = false -> shortID (a ++ String c b) = false.
Proof.
  intros Hc. unfold shortID. rewrite allLowerHex_app. simpl. rewrite Hc.
  now rewrite andb_false_r, andb_false_r.
Qed.

(** X5: an input that contains a character outside [0-9a-f] (a tag or
    digest separator, a slash, an upper-case letter) is never taken for
    a short ID, and an input taken for one has 4 to 64 characters. *)
Theorem shortID_rejects (a b s : string) (c : ascii) :
  (isLowerHex c = false -> shortID (a ++ String c b) = false)
  /\ (shortID s = true -> 4 <= String.length s <= 64).
Proof.
  split.
  - apply shortID_nonhex.
  - unfold shortID. rewrite !andb_true_iff, !Nat.leb_le. tauto.
Qed.

Lemma shortID_rejects_witness : shortID ("abcd" ++ String ":" "latest") = false.
Proof. exact (proj1 (shortID_rejects "abcd" "latest" "abcd" ":") eq_refl). Defined.

(** X6: the dangling name of a digest is never a short ID, and distinct
    digests have distinct dangling names: a record is dangling for its
    own target digest only. *)
Theorem danglingImageName_injective (d1 d2 : Digest) (img : ClientImage) :
  shortID (danglingImageName d1) = false
  /\ (danglingImageName d1 = danglingImageName d2 -> d1 = d2)
  /\ (isDanglingImage img = true ->
      Name (record img) = danglingImageName d1 ->
      DescDigest (Target (record img)) = d1).
Proof.
  split; [|split].
  - unfold danglingImageName. apply shortID_nonhex. reflexivity.
  - unfold danglingImageName, ImagePrefixDangling. simpl. intros [= H]. exact H.
  - unfold isDanglingImage. rewrite String.eqb_eq. intros -> H.
    unfold danglingImageName, ImagePrefixDangling in H. simpl in H.
    now injection H.
Qed.

Lemma danglingImageName_injective_witness :
  DescDigest (Target (mkImage (danglingImageName "sha256:base")
                              (manifestOf "sha256:base" None)))
  = "sha256:base".
Proof.
  exact (proj2 (proj2 (danglingImageName_injective "sha256:base" "sha256:base"
           (mkClientImage (mkImage (danglingImageName "sha256:base")
                                   (manifestOf "sha256:base" None)) DefaultMatcher)))
           eq_refl eq_refl).
Defined.

(** ** The present-children handler *)

(** X8: the handler of [presentChildrenHandler] fails only with an
    error of the blob reader that is not a not-found, or with the error
    of [Children] on a blob that is there; and the children it yields
    are children of a blob that is there: a missing blob is pruned
    without error. *)
Theorem presentChildrenHandler_prunes (eng : Engine) (desc : Descriptor) :
  (forall e, snd (presentChildrenHandler eng desc) = Some e <->
             (ReaderAt eng desc = Some e /\ isNotFoundErr e = false)
             \/ (ReaderAt eng desc = None /\ Children eng desc = Err e))
  /\ (forall c, In c (fst (presentChildrenHandler eng desc)) ->
                ReaderAt eng desc = None
                /\ exists subdescs, Children eng desc = Ok subdescs /\ In c subdescs)
  /\ (IsNotFound (ReaderAt eng desc) = true ->
      presentChildrenHandler eng desc = ([], None)).
Proof.
  unfold presentChildrenHandler, IsNotFound.
  destruct (ReaderAt eng desc) as [re|].
  - destruct (isNotFoundErr re) eqn:Hnf; simpl.
    + split; [|split; [intros c [] | reflexivity]].
      intros e. split; [discriminate|].
      intros [[[= <-] H]|[H _]]; congruence.
    + split; [|split; [intros c [] | discriminate]].
      intros e. split.
      * intros [= <-]. left. auto.
      * intros [[[= <-] _]|[H _]]; [reflexivity | discriminate].
  - destruct (Children eng desc) as [subdescs|ce]; simpl.
    + split; [|split; [|discriminate]].
      * intros e. split; [discriminate|].
        intros [[H _]|[_ H]]; discriminate.
      * intros c Hc. split; [reflexivity|]. eauto.
    + split; [|split; [intros c [] | discriminate]].
      intros e. split.
      * intros [= <-]. right. auto.
      * intros [[H _]|[_ [= <-]]]; [discriminate | reflexivity].
Qed.

(** ** Image materialisation *)

(** X9: an image materialised by [getImage] belongs to the record that
    [resolveImage] returns for the same reference and platform: its ID
    is the record's target digest, its root file system is the one read
    through the handle, and the handle matches strictly on the platform
    when one is given and by default otherwise. *)
Theorem getImage_ok
    (eng : Engine) (cs : Content) (store : Store) (refOrID : string)
    (platform : option Platform) (ii : ClientImage) (img : RichImage) :
  getImage eng cs store refOrID platform = Ok (ii, img) ->
  resolveImage eng store refOrID platform = (record ii, None)
  /\ ID img = DescDigest (Target (record ii))
  /\ RootFS cs ii = Ok (imgRootFS img)
  /\ matcher ii = match platform with
                  | Some p => OnlyStrict p
                  | None => DefaultMatcher
                  end.
Proof.
  unfold getImage, GetContainerdImage.
  destruct (resolveImage eng store refOrID platform) as [ctrdimg [e|]]; [discriminate|].
  set (containerdImage := match platform with
                          | Some p => mkClientImage ctrdimg (OnlyStrict p)
                          | None => mkClientImage ctrdimg DefaultMatcher
                          end).
  destruct (Config cs ctrdimg (matcher containerdImage)); [|discriminate].
  destruct (ReadBlob cs a); [|discriminate].
  destruct (Unmarshal cs a0); [|discriminate].
  destruct (RootFS cs containerdImage) as [fs|] eqn:Hfs; [|discriminate].
  intros [= <- <-]. subst containerdImage.
  destruct platform; simpl in *; auto.
Qed.

Lemma getImage_ok_witness :
  resolveImage plainEngine [baseImage] "base" (Some linux_amd64) = (baseImage, None).
Proof.
  exact (proj1 (getImage_ok plainEngine memContent [baseImage] "base" (Some linux_amd64)
                  (mkClientImage baseImage (OnlyStrict linux_amd64))
                  (mkRichImage "sha256:base" "linux" "amd64"
                               (mkImageConfig [] [] [] "" "" [] []) ["sha256:layer1"])
                  eq_refl)).
Defined.

(** X10: [getImage] recovers from nothing and wraps nothing: the error
    it returns is the error of [resolveImage], or the error of the
    config lookup, of the blob read, of the decoding or of the root file
    system read, as it is. *)
Theorem getImage_error_verbatim
    (eng : Engine) (cs : Content) (store : Store) (refOrID : string)
    (platform : option Platform) (e : error) :
  getImage eng cs store refOrID platform = Err e ->
  snd (resolveImage eng store refOrID platform) = Some e
  \/ (exists ctrdimg m, Config cs ctrdimg m = Err e)
  \/ (exists conf, ReadBlob cs conf = Err e)
  \/ (exists bytes, Unmarshal cs bytes = Err e)
  \/ (exists handle, RootFS cs handle = Err e).
Proof.
  unfold getImage, GetContainerdImage.
  destruct (resolveImage eng store refOrID platform) as [ctrdimg [re|]].
  - intros [= <-]. now left.
  - set (containerdImage := match platform with
                            | Some p => mkClientImage ctrdimg (OnlyStrict p)
                            | None => mkClientImage ctrdimg DefaultMatcher
                            end).
    destruct (Config cs ctrdimg (matcher containerdImage)) as [conf|ce] eqn:Hc.
    2:{ intros [= <-]. right. left. eauto. }
    destruct (ReadBlob cs conf) as [bytes|be] eqn:Hb.
    2:{ intros [= <-]. right. right. left. eauto. }
    destruct (Unmarshal cs bytes) as [oci|ue] eqn:Hu.
    2:{ intros [= <-]. right. right. right. left. eauto. }
    destruct (RootFS cs containerdImage) as [fs|fe] eqn:Hfs; [discriminate|].
    intros [= <-]. right. right. right. right. eauto.
Qed.

Lemma getImage_error_verbatim_witness :
  snd (resolveImage plainEngine [] "base" None)
  = Some (NotFound (ErrNew "id not found"))
  \/ (exists ctrdimg m, Config memContent ctrdimg m = Err (NotFound (ErrNew "id not found")))
  \/ (exists conf, ReadBlob memContent conf = Err (NotFound (ErrNew "id not found")))
  \/ (exists bytes, Unmarshal memContent bytes = Err (NotFound (ErrNew "id not found")))
  \/ (exists handle, RootFS memContent handle = Err (NotFound (ErrNew "id not found"))).
Proof.
  exact (getImage_error_verbatim plainEngine memContent [] "base" None
           (NotFound (ErrNew "id not found")) eq_refl).
Defined.

(** ** Image details *)

Lemma parseTags_ok (eng : Engine) (tagged : list Image) :
  forall tags tags' : list string,
    parseTags eng tagged tags = Ok tags' ->
    exists names, tags' = tags ++ names
                  /\ Forall2 (fun i name => ParseNamed eng (Name i) = Ok name) tagged names.
Proof.
  induction tagged as [|i tagged IH]; intros tags tags'; simpl.
  - intros [= <-]. exists []. rewrite app_nil_r. auto.
  - destruct (ParseNamed eng (Name i)) as [name|e] eqn:Hp; [|discriminate].
    intros H. apply IH in H. destruct H as [names [-> Hall]].
    exists (name :: names). rewrite <- app_assoc. auto.
Qed.

Lemma parseTags_first_error (eng : Engine) (pre post : list Image) (i : Image) (e : error) :
  forall tags : list string,
    (forall j, In j pre -> exists name, ParseNamed eng (Name j) = Ok name) ->
    ParseNamed eng (Name i) = Err e ->
    parseTags eng (pre ++ i :: post) tags = Err e.
Proof.
  induction pre as [|j pre IH]; intros tags Hpre Hi; simpl.
  - now rewrite Hi.
  - destruct (Hpre j (or_introl eq_refl)) as [name ->].
    apply IH; [|assumption]. intros k Hk. apply Hpre. now right.
Qed.

(** X11: what [GetImage] returns is the image of [getImage]; without
    [Details] it carries no details; with [Details] the references are
    the parsed names of the records that [List] gives for the image's
    target digest, one per record and in the order of the list, the
    size is the one of the handle and the driver is the service's
    snapshotter. *)
Theorem GetImage_ok
    (eng : Engine) (cs : Content) (insp : Inspector) (store : Store)
    (refOrID : string) (options : GetImageOpts) (res : DetailedImage) :
  GetImage eng cs insp store refOrID options = Ok res ->
  exists ii,
    getImage eng cs store refOrID (optPlatform options) = Ok (ii, detailedImage res)
    /\ (optDetails options = false -> imageDetails res = None)
    /\ (optDetails options = true ->
        exists det tagged,
          imageDetails res = Some det
          /\ List eng store [FTargetDigestEq (DescDigest (Target (record ii)))] = Ok tagged
          /\ Forall2 (fun i name => ParseNamed eng (Name i) = Ok name)
                     tagged (References det)
          /\ ImageSize insp ii = Ok (DetailsSize det)
          /\ Driver det = snapshotterName insp
          /\ LastUpdated det = UpdatedAt insp (record ii)).
Proof.
  unfold GetImage.
  destruct (getImage eng cs store refOrID (optPlatform options)) as [[ii img]|e];
    [|discriminate].
  destruct (optDetails options).
  - destruct (ImageSize insp ii) as [size|e] eqn:Hsize; [|discriminate].
    destruct (List eng store _) as [tagged|e] eqn:Hlist; [|discriminate].
    destruct (parseTags eng tagged []) as [tags|e] eqn:Htags; [|discriminate].
    intros [= <-]. exists ii. split; [reflexivity|]. split; [discriminate|].
    intros _. eexists _, tagged. split; [reflexivity|]. split; [assumption|].
    apply parseTags_ok in Htags. destruct Htags as [names [-> Hall]]. simpl. auto.
  - intros [= <-]. exists ii. split; [reflexivity|]. split; [reflexivity | discriminate].
Qed.

Lemma GetImage_ok_witness :
  exists ii,
    getImage plainEngine memContent [baseImage] "base" None = Ok (ii, baseRich)
    /\ (true = false ->
        Some (mkDetails ["base:latest"] 42 "overlayfs" 7) = None)
    /\ (true = true ->
        exists det tagged,
          Some (mkDetails ["base:latest"] 42 "overlayfs" 7) = Some det
          /\ List plainEngine [baseImage]
               [FTargetDigestEq (DescDigest (Target (record ii)))] = Ok tagged
          /\ Forall2 (fun i name => ParseNamed plainEngine (Name i) = Ok name)
                     tagged (References det)
          /\ ImageSize memInspector ii = Ok (DetailsSize det)
          /\ Driver det = snapshotterName memInspector
          /\ LastUpdated det = UpdatedAt memInspector (record ii)).
Proof.
  exact (GetImage_ok plainEngine memContent memInspector [baseImage] "base"
           (mkGetImageOpts None true)
           (mkDetailedImage baseRich (Some (mkDetails ["base:latest"] 42 "overlayfs" 7)))
           eq_refl).
Defined.

(** X12: with [Details], [GetImage] fails as a whole when the name of
    one of the records sharing the target digest does not parse, with
    the parse error of the first such record. *)
Theorem GetImage_unparsable_tag
    (eng : Engine) (cs : Content) (insp : Inspector) (store : Store)
    (refOrID : string) (platform : option Platform) (ii : ClientImage) (img : RichImage)
    (size : nat) (pre post : list Image) (i : Image) (e : error) :
  getImage eng cs store refOrID platform = Ok (ii, img) ->
  ImageSize insp ii = Ok size ->
  List eng store [FTargetDigestEq (DescDigest (Target (record ii)))] = Ok (pre ++ i :: post) ->
  (forall j, In j pre -> exists name, ParseNamed eng (Name j) = Ok name) ->
  ParseNamed eng (Name i) = Err e ->
  GetImage eng cs insp store refOrID (mkGetImageOpts platform true) = Err e.
Proof.
  intros Hget Hsize Hlist Hpre Hi. unfold GetImage. simpl.
  rewrite Hget, Hsize, Hlist.
  now rewrite (parseTags_first_error eng pre post i e [] Hpre Hi).
Qed.

Lemma GetImage_unparsable_tag_witness :
  GetImage namesEngine memContent memInspector [baseImage; danglingBase] "base"
    (mkGetImageOpts None true)
  = Err (ErrNew "repository name must be canonical").
Proof.
  refine (GetImage_unparsable_tag namesEngine memContent memInspector
            [baseImage; danglingBase] "base" None
            (mkClientImage baseImage DefaultMatcher) baseRich 42
            [baseImage] [] danglingBase (ErrNew "repository name must be canonical")
            eq_refl eq_refl eq_refl _ eq_refl).
  intros j [<-|[]]. exists "base:latest". reflexivity.
Defined.

(** ** Running on the container's file system *)

(** X13: [PerformWithBaseFS] stops at a failure of [Mounts]: it returns
    that error as it is, makes no temporary directory, mounts nothing
    and does not call [fn]. *)
Theorem PerformWithBaseFS_mounts_error
    (sn : Snapshotter) (c : Container) (fn : string -> M Snap (option error))
    (s : Snap) (mounts : list Mount) (e : error) :
  Mounts sn (ContainerID c) = (mounts, Some e) ->
  PerformWithBaseFS sn c fn s
  = (Returned (Some e),
     mkSnap (views s) (mounted s) (calls s ++ [SMounts (ContainerID c)])
            (tmpdirs s) (changes s) (err s)).
Proof.
  intros Hm. unfold PerformWithBaseFS, bind, call. simpl. now rewrite Hm.
Qed.

Lemma PerformWithBaseFS_mounts_error_witness :
  PerformWithBaseFS (memSnapshotter ([], Some mountsFailed) ([], None) None)
    container1 failingCallback snap0
  = (Returned (Some mountsFailed), mkSnap [] [] [SMounts "c1"] 0 [] None).
Proof.
  exact (PerformWithBaseFS_mounts_error
           (memSnapshotter ([], Some mountsFailed) ([], None) None)
           container1 failingCallback snap0 [] mountsFailed eq_refl).
Defined.

(** X14: when the container's mounts are mounted, [PerformWithBaseFS]
    calls [fn] once on the mount point and unmounts right after it,
    whether [fn] returns or panics; an error of [fn] is the cause of the
    error returned, and without error of [fn] and of the unmount the
    call returns none and leaves mounted what was mounted before, save
    the mount point. *)
Theorem PerformWithBaseFS_brackets
    (sn : Snapshotter) (c : Container) (fn : string -> M Snap (option error))
    (s s2 : Snap) (mounts : list Mount) (root : string) (o : outcome (option error)) :
  Mounts sn (ContainerID c) = (mounts, None) ->
  MkdirTemp sn (tmpdirs s) = Ok root ->
  mountAll sn mounts root = None ->
  fn root (mkSnap (views s) (root :: mounted s)
                  (calls s ++ [SMounts (ContainerID c); SMount root])
                  (S (tmpdirs s)) (changes s) (err s)) = (o, s2) ->
  calls (snd (PerformWithBaseFS sn c fn s)) = calls s2 ++ [SUnmount root]
  /\ (o = Panicked -> fst (PerformWithBaseFS sn c fn s) = Panicked)
  /\ (forall e, o = Returned (Some e) ->
        exists e', fst (PerformWithBaseFS sn c fn s) = Returned (Some e') /\ wraps e' e)
  /\ (o = Returned None -> unmount sn root = None ->
      fst (PerformWithBaseFS sn c fn s) = Returned None
      /\ mounted (snd (PerformWithBaseFS sn c fn s)) = without root (mounted s2)).
Proof.
  intros Hm Htmp Hmount Hfn.
  unfold PerformWithBaseFS, WithTempMount, unmountTemp, bind, call, nextTmpdir,
    setMounted, ret.
  cbn [calls views mounted tmpdirs changes err fst snd].
  rewrite Hm. cbn [calls views mounted tmpdirs changes err fst snd].
  rewrite Htmp. cbn [calls views mounted tmpdirs changes err fst snd].
  rewrite Hmount. cbn [calls views mounted tmpdirs changes err fst snd].
  rewrite <- app_assoc. cbn [app]. rewrite Hfn.
  destruct o as [[e|]|]; destruct (unmount sn root) as [ue|];
    cbn [calls views mounted tmpdirs changes err fst snd];
    (split; [reflexivity|]); (split; [try discriminate; reflexivity|]);
    (split; [try discriminate|try discriminate]).
  - intros e0 [= <-]. eexists. split; [reflexivity|]. apply wraps_ErrWrap, wraps_ErrWrap, wraps_refl.
  - intros e0 [= <-]. eexists. split; [reflexivity|]. apply wraps_ErrWrap, wraps_refl.
  - intros _ _. split; reflexivity.
Qed.

Lemma PerformWithBaseFS_brackets_witness :
  exists e',
    fst (PerformWithBaseFS (memSnapshotter (["m"], None) ([], None) None)
           container1 failingCallback snap0) = Returned (Some e')
    /\ wraps e' callbackFailed.
Proof.
  exact (proj1 (proj2 (proj2 (PerformWithBaseFS_brackets
           (memSnapshotter (["m"], None) ([], None) None)
           container1 failingCallback snap0
           (mkSnap [] ["/tmp/mount0"] [SMounts "c1"; SMount "/tmp/mount0"] 1 [] None)
           ["m"] "/tmp/mount0" (Returned (Some callbackFailed))
           eq_refl eq_refl eq_refl eq_refl))) callbackFailed eq_refl).
Defined.

(** ** Change computation: the other paths *)

Lemma without_not_In (x : string) (l : list string) : ~ In x (without x l).
Proof.
  unfold without. rewrite filter_In, negb_true_iff, String.eqb_neq. tauto.
Qed.

(** Unfold a call of [Changes] whose steps up to the creation of the
    view succeed, and split on every answer of the snapshotter that
    follows. *)
Ltac changes_cases sn Hget Hfs Hrnd Hview :=
  unfold Changes, changesBody, bind, call, getErr, enter;
  cbn [calls views mounted tmpdirs changes err fst snd];
  destruct (Mounts sn _) as [?mounts ?uerr];
  rewrite Hget, Hfs, Hrnd;
  cbn [calls views mounted tmpdirs changes err fst snd];
  rewrite Hview;
  unfold defer, WithTempMount, unmountTemp, removeView, bind, call, setViews,
    setMounted, nextTmpdir, setChanges, setErr, getErr, ret, panic;
  cbn [calls views mounted tmpdirs changes err fst snd];
  repeat match goal with
         | |- context [match MkdirTemp sn ?n with _ => _ end] =>
             destruct (MkdirTemp sn n);
             cbn [calls views mounted tmpdirs changes err fst snd]
         | |- context [match mountAll sn ?m ?r with _ => _ end] =>
             destruct (mountAll sn m r);
             cbn [calls views mounted tmpdirs changes err fst snd]
         | |- context [let '(_, _) := ChangesDirs sn ?a ?b in _] =>
             destruct (ChangesDirs sn a b) as [?c [?de|]];
             cbn [calls views mounted tmpdirs changes err fst snd]
         | |- context [match unmount sn ?r with _ => _ end] =>
             destruct (unmount sn r);
             cbn [calls views mounted tmpdirs changes err fst snd]
         | |- context [match Remove sn ?r with _ => _ end] =>
             destruct (Remove sn r) eqn:?Hremove;
             cbn [calls views mounted tmpdirs changes err fst snd]
         end.

(** X15: when the image cannot be materialised, its root file system
    cannot be read, no identifier can be drawn or the view cannot be
    created, [Changes] returns that error as it is with no changes, and
    it has mounted nothing, diffed nothing and removed no view. *)
Theorem Changes_early_failure
    (eng : Engine) (cs : Content) (store : Store) (sn : Snapshotter)
    (container : Container) (s : Snap) (e : error) :
  getImage eng cs store (ConfigImage container) (Some (ConfigPlatform container)) = Err e
  \/ (exists baseImg rich,
        getImage eng cs store (ConfigImage container) (Some (ConfigPlatform container))
        = Ok (baseImg, rich)
        /\ (BaseRootFS sn baseImg = Err e
            \/ exists diffIDs,
                BaseRootFS sn baseImg = Ok diffIDs
                /\ (NewRandom sn = Err e
                    \/ exists rnd, NewRandom sn = Ok rnd
                                   /\ View sn rnd (ChainID sn diffIDs) = Err e))) ->
  fst (Changes eng cs store sn container s) = Returned ([], Some e)
  /\ views (snd (Changes eng cs store sn container s)) = views s
  /\ mounted (snd (Changes eng cs store sn container s)) = mounted s
  /\ tmpdirs (snd (Changes eng cs store sn container s)) = tmpdirs s
  /\ forall ev, In ev (calls (snd (Changes eng cs store sn container s))) ->
                In ev (calls s)
                \/ ev = SMounts (ContainerID container)
                \/ ev = SGetImage (ConfigImage container)
                \/ exists key parent, ev = SView key parent.
Proof.
  intros H.
  unfold Changes, changesBody, returnErr, bind, call, getErr, setChanges, setErr, enter.
  cbn [calls views mounted tmpdirs changes err fst snd].
  destruct (Mounts sn (ContainerID container)) as [mounts uerr].
  destruct H as [Hget|[baseImg [rich [Hget H]]]]; rewrite Hget;
    cbn [calls views mounted tmpdirs changes err fst snd].
  2: destruct H as [Hfs|[diffIDs [Hfs H]]]; rewrite Hfs;
       cbn [calls views mounted tmpdirs changes err fst snd].
  3: destruct H as [Hrnd|[rnd [Hrnd Hview]]]; rewrite Hrnd;
       cbn [calls views mounted tmpdirs changes err fst snd];
       [|rewrite Hview; cbn [calls views mounted tmpdirs changes err fst snd]].
  all: repeat (split; [reflexivity|]).
  all: intros ev Hin; rewrite !in_app_iff in Hin; simpl in Hin.
  all: intuition eauto.
Qed.

Lemma Changes_early_failure_witness :
  fst (Changes plainEngine memContent []
         (stepSnapshotter (Ok ["sha256:layer1"]) (Ok "view0") (Ok ["view-mount"]))
         container1 snap0)
  = Returned ([], Some (NotFound (ErrNew "id not found")))
  /\ fst (Changes plainEngine memContent [baseImage]
            (stepSnapshotter (Err rootfsFailed) (Ok "view0") (Ok ["view-mount"]))
            container1 snap0)
     = Returned ([], Some rootfsFailed)
  /\ fst (Changes plainEngine memContent [baseImage]
            (stepSnapshotter (Ok ["sha256:layer1"]) (Err uuidFailed) (Ok ["view-mount"]))
            container1 snap0)
     = Returned ([], Some uuidFailed)
  /\ fst (Changes plainEngine memContent [baseImage]
            (stepSnapshotter (Ok ["sha256:layer1"]) (Ok "view0") (Err viewFailed))
            container1 snap0)
     = Returned ([], Some viewFailed).
Proof.
  split; [|split; [|split]].
  - refine (proj1 (Changes_early_failure plainEngine memContent [] _ container1 snap0
                     (NotFound (ErrNew "id not found")) _)).
    left. reflexivity.
  - refine (proj1 (Changes_early_failure plainEngine memContent [baseImage] _
                     container1 snap0 rootfsFailed _)).
    right. exists (mkClientImage baseImage (OnlyStrict linux_amd64)), baseRich.
    split; [reflexivity|]. left. reflexivity.
  - refine (proj1 (Changes_early_failure plainEngine memContent [baseImage] _
                     container1 snap0 uuidFailed _)).
    right. exists (mkClientImage baseImage (OnlyStrict linux_amd64)), baseRich.
    split; [reflexivity|]. right. exists ["sha256:layer1"].
    split; [reflexivity|]. left. reflexivity.
  - refine (proj1 (Changes_early_failure plainEngine memContent [baseImage] _
                     container1 snap0 viewFailed _)).
    right. exists (mkClientImage baseImage (OnlyStrict linux_amd64)), baseRich.
    split; [reflexivity|]. right. exists ["sha256:layer1"].
    split; [reflexivity|]. right. exists "view0". split; reflexivity.
Defined.

(** X16: when every step of [Changes] succeeds, it returns the changes
    of the directory diff without error; the calls are, in this order,
    the two mounts, the diff, the unmount of the view's mount, the
    unmount of the container's mount and the removal of the view; and
    neither the view nor a mount point is left. *)
Theorem Changes_success
    (eng : Engine) (cs : Content) (store : Store) (sn : Snapshotter)
    (container : Container) (s : Snap)
    (baseImg : ClientImage) (rich : RichImage) (diffIDs : list Digest)
    (rnd fs root : string) (parent : list Mount) (c : list Change) :
  getImage eng cs store (ConfigImage container) (Some (ConfigPlatform container))
  = Ok (baseImg, rich) ->
  BaseRootFS sn baseImg = Ok diffIDs ->
  NewRandom sn = Ok rnd ->
  View sn rnd (ChainID sn diffIDs) = Ok parent ->
  MkdirTemp sn (tmpdirs s) = Ok fs ->
  MkdirTemp sn (S (tmpdirs s)) = Ok root ->
  mountAll sn (ReadonlyMounts sn (fst (Mounts sn (ContainerID container)))) fs = None ->
  mountAll sn parent root = None ->
  ChangesDirs sn fs root = (c, None) ->
  unmount sn root = None ->
  unmount sn fs = None ->
  Remove sn rnd = None ->
  fst (Changes eng cs store sn container s) = Returned (c, None)
  /\ calls (snd (Changes eng cs store sn container s))
     = calls s ++ [SMounts (ContainerID container); SGetImage (ConfigImage container);
                   SView rnd (ChainID sn diffIDs); SMount fs; SMount root;
                   SChangesDirs fs root; SUnmount root; SUnmount fs; SRemove rnd]
  /\ ~ In rnd (views (snd (Changes eng cs store sn container s)))
  /\ ~ In root (mounted (snd (Changes eng cs store sn container s)))
  /\ ~ In fs (mounted (snd (Changes eng cs store sn container s))).
Proof.
  intros Hget Hfs Hrnd Hview Htmp1 Htmp2 Hm1 Hm2 Hdiff Hu2 Hu1 Hrm.
  unfold Changes, changesBody, bind, call, getErr, enter.
  cbn [calls views mounted tmpdirs changes err fst snd].
  destruct (Mounts sn (ContainerID container)) as [mounts uerr]. cbn [fst] in Hm1.
  rewrite Hget, Hfs, Hrnd. cbn [calls views mounted tmpdirs changes err fst snd].
  rewrite Hview.
  unfold defer, WithTempMount, unmountTemp, removeView, bind, call, setViews, setMounted,
    nextTmpdir, setChanges, setErr, getErr, ret, panic.
  cbn [calls views mounted tmpdirs changes err fst snd].
  rewrite Htmp1. cbn [calls views mounted tmpdirs changes err fst snd]. rewrite Hm1.
  cbn [calls views mounted tmpdirs changes err fst snd].
  rewrite Htmp2. cbn [calls views mounted tmpdirs changes err fst snd]. rewrite Hm2.
  cbn [calls views mounted tmpdirs changes err fst snd].
  rewrite Hdiff. cbn [calls views mounted tmpdirs changes err fst snd].
  rewrite Hu2. cbn [calls views mounted tmpdirs changes err fst snd].
  rewrite Hu1. cbn [calls views mounted tmpdirs changes err fst snd].
  rewrite Hrm. cbn [calls views mounted tmpdirs changes err fst snd].
  split; [reflexivity|]. split; [now rewrite <- !app_assoc|].
  split; [apply without_not_In|]. split.
  - unfold without at 1. rewrite filter_In. intros [Hin _]. revert Hin. apply without_not_In.
  - apply without_not_In.
Qed.

Lemma Changes_success_witness :
  fst (Changes plainEngine memContent [baseImage]
         (memSnapshotter (["m"], None) (someChanges, None) None) container1 snap0)
  = Returned (someChanges, None).
Proof.
  exact (proj1 (Changes_success plainEngine memContent [baseImage]
           (memSnapshotter (["m"], None) (someChanges, None) None) container1 snap0
           (mkClientImage baseImage (OnlyStrict linux_amd64)) baseRich ["sha256:layer1"]
           "view0" "/tmp/mount0" "/tmp/mount1" ["view-mount"] someChanges
           eq_refl eq_refl eq_refl eq_refl eq_refl eq_refl eq_refl eq_refl
           eq_refl eq_refl eq_refl eq_refl)).
Defined.

(** X17: once [Changes] has created its view, its last call is the
    removal of that view, whatever fails in between and whether it
    returns or panics; the calls in between are mounts, the diff and
    unmounts, and every mount made is followed by its unmount before the
    removal; and when the removal succeeds the view is gone. *)
Theorem Changes_always_removes_view
    (eng : Engine) (cs : Content) (store : Store) (sn : Snapshotter)
    (container : Container) (s : Snap)
    (baseImg : ClientImage) (rich : RichImage) (diffIDs : list Digest)
    (rnd : string) (parent : list Mount) :
  getImage eng cs store (ConfigImage container) (Some (ConfigPlatform container))
  = Ok (baseImg, rich) ->
  BaseRootFS sn baseImg = Ok diffIDs ->
  NewRandom sn = Ok rnd ->
  View sn rnd (ChainID sn diffIDs) = Ok parent ->
  exists mid,
    calls (snd (Changes eng cs store sn container s))
    = calls s ++ [SMounts (ContainerID container); SGetImage (ConfigImage container);
                  SView rnd (ChainID sn diffIDs)] ++ mid ++ [SRemove rnd]
    /\ Forall isMountCall mid
    /\ (forall pre root post, mid = pre ++ SMount root :: post -> In (SUnmount root) post)
    /\ (Remove sn rnd = None ->
        ~ In rnd (views (snd (Changes eng cs store sn container s)))).
Proof.
  intros Hget Hfs Hrnd Hview.
  changes_cases sn Hget Hfs Hrnd Hview.
  all: rewrite <- ?app_assoc; cbn [app].
  all: match goal with
       | |- exists mid, _ ++ _ :: _ :: _ :: ?l = _ /\ _ =>
           exists (removelast l)
       end.
  all: cbn [removelast app].
  all: split; [reflexivity|].
  all: split; [repeat (apply Forall_cons; [unfold isMountCall; eauto 6|]); apply Forall_nil|].
  all: split; [|first [intros _; apply without_not_In | discriminate]].
  all: intros pre r post Hmid.
  all: repeat (destruct pre as [|? pre];
               [first [discriminate Hmid
                      |injection Hmid as He Hpost; subst; simpl; auto 8]
               |first [discriminate Hmid | injection Hmid as _ Hmid]]).
Qed.

Lemma Changes_always_removes_view_witness :
  exists mid,
    calls (snd (Changes plainEngine memContent [baseImage]
                  (memSnapshotter (["m"], None) ([], Some diffFailed) None)
                  container1 snap0))
    = calls snap0 ++ [SMounts "c1"; SGetImage "base"; SView "view0" "sha256:layer1"]
        ++ mid ++ [SRemove "view0"]
    /\ Forall isMountCall mid
    /\ (forall pre root post, mid = pre ++ SMount root :: post -> In (SUnmount root) post)
    /\ (Remove (memSnapshotter (["m"], None) ([], Some diffFailed) None) "view0" = None ->
        ~ In "view0"
            (views (snd (Changes plainEngine memContent [baseImage]
                           (memSnapshotter (["m"], None) ([], Some diffFailed) None)
                           container1 snap0)))).
Proof.
  exact (Changes_always_removes_view plainEngine memContent [baseImage]
           (memSnapshotter (["m"], None) ([], Some diffFailed) None) container1 snap0
           (mkClientImage baseImage (OnlyStrict linux_amd64)) baseRich ["sha256:layer1"]
           "view0" ["view-mount"] eq_refl eq_refl eq_refl eq_refl).
Defined.

(** X18: once the view is created, [Changes] returns an error only when
    the removal of the view failed: the error is the removal error, or
    the removal error's message put in front of the error of the
    mounts or of the diff.  A failure of the mounts or of the diff
    alone never comes back: with a successful removal the call panics
    on it. *)
Theorem Changes_error_needs_remove_error
    (eng : Engine) (cs : Content) (store : Store) (sn : Snapshotter)
    (container : Container) (s : Snap)
    (baseImg : ClientImage) (rich : RichImage) (diffIDs : list Digest)
    (rnd : string) (parent : list Mount) :
  getImage eng cs store (ConfigImage container) (Some (ConfigPlatform container))
  = Ok (baseImg, rich) ->
  BaseRootFS sn baseImg = Ok diffIDs ->
  NewRandom sn = Ok rnd ->
  View sn rnd (ChainID sn diffIDs) = Ok parent ->
  (forall c e, fst (Changes eng cs store sn container s) = Returned (c, Some e) ->
     exists ue, Remove sn rnd = Some ue
                /\ (e = ue \/ exists e', e = ErrWrap (Error ue) e'))
  /\ (fst (Changes eng cs store sn container s) = Panicked <->
      Remove sn rnd = None
      /\ err (snd (Changes eng cs store sn container s)) <> None).
Proof.
  intros Hget Hfs Hrnd Hview.
  changes_cases sn Hget Hfs Hrnd Hview.
  all: split;
    [intros c' e' Hret; first [discriminate Hret | injection Hret as _ <-; eauto]
    |split; [intros Hp; first [discriminate Hp | split; [reflexivity | discriminate]]
            |intros [Hr Herr];
             first [discriminate Hr | reflexivity | exfalso; apply Herr; reflexivity]]].
Qed.

Lemma Changes_error_needs_remove_error_witness :
  exists ue,
    Remove (memSnapshotter (["m"], None) ([], Some diffFailed) (Some removeFailed)) "view0"
    = Some ue
    /\ (ErrWrap "remove failed"
          (ErrWrap "mount callback failed on /tmp/mount0"
             (ErrWrap "mount callback failed on /tmp/mount1" diffFailed)) = ue
        \/ exists e',
             ErrWrap "remove failed"
               (ErrWrap "mount callback failed on /tmp/mount0"
                  (ErrWrap "mount callback failed on /tmp/mount1" diffFailed))
             = ErrWrap (Error ue) e').
Proof.
  exact (proj1 (Changes_error_needs_remove_error plainEngine memContent [baseImage]
           (memSnapshotter (["m"], None) ([], Some diffFailed) (Some removeFailed))
           container1 snap0
           (mkClientImage baseImage (OnlyStrict linux_amd64)) baseRich ["sha256:layer1"]
           "view0" ["view-mount"] eq_refl eq_refl eq_refl eq_refl)
           [] (ErrWrap "remove failed"
                 (ErrWrap "mount callback failed on /tmp/mount0"
                    (ErrWrap "mount callback failed on /tmp/mount1" diffFailed)))
           eq_refl).
Defined.

(** ** Import: order and stop *)

Lemma checkedImages_app (l l' : list LoadEvent) :
  checkedImages (l ++ l') = checkedImages l ++ checkedImages l'.
Proof. apply flat_map_app. Qed.

Lemma loadImages_order (imp : Importer) (imgs : list Image) :
  forall log : list LoadEvent,
  exists new rest,
    snd (loadImages imp imgs log) = log ++ new
    /\ imgs = checkedImages new ++ rest
    /\ (fst (loadImages imp imgs log) = None -> rest = [])
    /\ (forall e, fst (loadImages imp imgs log) = Some e ->
          exists pre img e',
            new = pre ++ [LUnpack img (Some e')]
            /\ e = ErrWrap "failed to unpack image" e'
            /\ forall i u, In (LUnpack i u) pre -> u = None).
Proof.
  induction imgs as [|img imgs IH]; intros log.
  - exists [], []. simpl. rewrite app_nil_r.
    split; [reflexivity|]. split; [reflexivity|]. split; [reflexivity | discriminate].
  - simpl. destruct (IsUnpacked imp log img) as [[|]|ce].
    + simpl. destruct (IH (log ++ [LIsUnpacked img (Ok true)]))
        as [new [rest [Hlog [Himgs [Hnone Herr]]]]].
      exists (LIsUnpacked img (Ok true) :: new), rest.
      split; [now rewrite Hlog, <- app_assoc|]. split; [simpl; now f_equal|].
      split; [assumption|]. intros e He.
      destruct (Herr e He) as [pre [i [e' [-> [-> Hpre]]]]].
      exists (LIsUnpacked img (Ok true) :: pre), i, e'.
      split; [reflexivity|]. split; [reflexivity|].
      intros j u [Hj|Hj]; [discriminate | eauto].
    + simpl.
      destruct (Unpack imp (log ++ [LIsUnpacked img (Ok false)]) img) as [ue|].
      * exists [LIsUnpacked img (Ok false); LUnpack img (Some ue)], imgs. simpl.
        split; [now rewrite <- app_assoc|]. split; [reflexivity|].
        split; [discriminate|]. intros e [= <-].
        exists [LIsUnpacked img (Ok false)], img, ue.
        split; [reflexivity|]. split; [reflexivity|].
        intros j u [Hj|[]]; discriminate.
      * destruct (IH ((log ++ [LIsUnpacked img (Ok false)]) ++ [LUnpack img None]))
          as [new [rest [Hlog [Himgs [Hnone Herr]]]]].
        exists (LIsUnpacked img (Ok false) :: LUnpack img None :: new), rest.
        split; [now rewrite Hlog, <- !app_assoc|]. split; [simpl; now f_equal|].
        split; [assumption|]. intros e He.
        destruct (Herr e He) as [pre [i [e' [-> [-> Hpre]]]]].
        exists (LIsUnpacked img (Ok false) :: LUnpack img None :: pre), i, e'.
        split; [reflexivity|]. split; [reflexivity|].
        intros j u [Hj|[[= _ <-]|Hj]]; [discriminate | reflexivity | eauto].
    + destruct (IH (log ++ [LIsUnpacked img (Err ce)]))
        as [new [rest [Hlog [Himgs [Hnone Herr]]]]].
      exists (LIsUnpacked img (Err ce) :: new), rest.
      split; [now rewrite Hlog, <- app_assoc|]. split; [simpl; now f_equal|].
      split; [assumption|]. intros e He.
      destruct (Herr e He) as [pre [i [e' [-> [-> Hpre]]]]].
      exists (LIsUnpacked img (Err ce) :: pre), i, e'.
      split; [reflexivity|]. split; [reflexivity|].
      intros j u [Hj|Hj]; [discriminate | eauto].
Qed.

(** X19: [LoadImage] checks the imported images one by one in the order
    of the import, each at most once: the checked images are a prefix of
    the imported ones, and all of them when the call returns no
    error. *)
Theorem LoadImage_checks_in_order (imp : Importer) (imgs : list Image) :
  Import imp = Ok imgs ->
  exists rest,
    imgs = checkedImages (snd (LoadImage imp)) ++ rest
    /\ (fst (LoadImage imp) = None -> rest = []).
Proof.
  intros Himp. unfold LoadImage. rewrite Himp.
  destruct (loadImages_order imp imgs []) as [new [rest [Hlog [Himgs [Hnone _]]]]].
  simpl in Hlog. rewrite Hlog. eauto.
Qed.

Lemma LoadImage_checks_in_order_witness :
  exists rest,
    [baseImage; fooTag] = checkedImages (snd (LoadImage failingImporter)) ++ rest
    /\ (fst (LoadImage failingImporter) = None -> rest = []).
Proof.
  exact (LoadImage_checks_in_order failingImporter [baseImage; fooTag] eq_refl).
Defined.

(** X20: a failed unpack ends the import at once: when [LoadImage]
    returns an error of the unpack phase, the failed unpack is its last
    call, no unpack before it failed, and the error is that failure
    wrapped as "failed to unpack image". *)
Theorem LoadImage_stops_at_failed_unpack (imp : Importer) (imgs : list Image) (e : error) :
  Import imp = Ok imgs ->
  fst (LoadImage imp) = Some e ->
  exists pre img e',
    snd (LoadImage imp) = pre ++ [LUnpack img (Some e')]
    /\ e = ErrWrap "failed to unpack image" e'
    /\ forall i u, In (LUnpack i u) pre -> u = None.
Proof.
  intros Himp. unfold LoadImage. rewrite Himp. intros He.
  destruct (loadImages_order imp imgs []) as [new [rest [Hlog [_ [_ Herr]]]]].
  simpl in Hlog. rewrite Hlog. now apply Herr.
Qed.

Lemma LoadImage_stops_at_failed_unpack_witness :
  exists pre img e',
    snd (LoadImage failingImporter) = pre ++ [LUnpack img (Some e')]
    /\ ErrWrap "failed to unpack image" (ErrNew "no space left")
       = ErrWrap "failed to unpack image" e'
    /\ forall i u, In (LUnpack i u) pre -> u = None.
Proof.
  exact (LoadImage_stops_at_failed_unpack failingImporter [baseImage; fooTag]
           (ErrWrap "failed to unpack image" (ErrNew "no space left")) eq_refl eq_refl).
Defined.

Lemma loadImages_all_unpacked (imp : Importer) (imgs : list Image) :
  (forall log img, In img imgs -> IsUnpacked imp log img = Ok true) ->
  forall log,
    loadImages imp imgs log
    = (None, log ++ map (fun img => LIsUnpacked img (Ok true)) imgs).
Proof.
  intros Hall. induction imgs as [|img imgs IH]; intros log; simpl.
  - now rewrite app_nil_r.
  - rewrite (Hall log img (or_introl eq_refl)). simpl.
    rewrite IH by (intros l i Hi; apply Hall; now right).
    now rewrite <- app_assoc.
Qed.

(** X21: when every imported image is found unpacked, [LoadImage]
    returns no error having made one check per image and no unpack. *)
Theorem LoadImage_all_unpacked (imp : Importer) (imgs : list Image) :
  Import imp = Ok imgs ->
  (forall log img, In img imgs -> IsUnpacked imp log img = Ok true) ->
  LoadImage imp = (None, map (fun img => LIsUnpacked img (Ok true)) imgs).
Proof.
  intros Himp Hall. unfold LoadImage. rewrite Himp.
  now rewrite (loadImages_all_unpacked imp imgs Hall []).
Qed.

Lemma LoadImage_all_unpacked_witness :
  LoadImage unpackedImporter
  = (None, [LIsUnpacked baseImage (Ok true); LIsUnpacked fooTag (Ok true)]).
Proof.
  exact (LoadImage_all_unpacked unpackedImporter [baseImage; fooTag] eq_refl
           (fun _ _ _ => eq_refl)).
Defined.

(** ** Export planning: the probe loop *)

(** X22: the probe loop of [optForImageExport] looks at the manifest
    children only: children of any other type change neither its
    outcome nor the platforms it collects. *)
Theorem probeChildren_manifests_only
    (eng : Engine) (children : list Descriptor) (missing present : list Platform) :
  probeChildren eng children missing present
  = probeChildren eng
      (filter (fun c => IsManifestType eng (MediaType c)) children) missing present.
Proof.
  revert missing present.
  induction children as [|c children IH]; intros missing present; simpl; [reflexivity|].
  destruct (IsManifestType eng (MediaType c)) eqn:Hm; [|apply IH].
  simpl. rewrite Hm.
  destruct (IsNotFound (ReaderAt eng c)).
  - destruct (DescPlatform c); [apply IH | reflexivity].
  - destruct (ReaderAt eng c); [reflexivity|].
    destruct (DescPlatform c); [apply IH | reflexivity].
Qed.

(** X23: when the probe loop completes, every manifest child has been
    counted once, as missing or as present: the two lists together have
    grown by the number of manifest children. *)
Theorem probeChildren_partition
    (eng : Engine) (children : list Descriptor)
    (missing present missing' present' : list Platform) :
  probeChildren eng children missing present = Returned (Ok (missing', present')) ->
  length missing' + length present'
  = length missing + length present
    + length (filter (fun c => IsManifestType eng (MediaType c)) children).
Proof.
  revert missing present.
  induction children as [|c children IH]; intros missing present; simpl.
  - intros [= <- <-]. lia.
  - destruct (IsManifestType eng (MediaType c)); [|apply IH].
    destruct (IsNotFound (ReaderAt eng c)).
    + destruct (DescPlatform c); [|discriminate].
      intros H. apply IH in H. rewrite length_app in H. simpl in *. lia.
    + destruct (ReaderAt eng c); [discriminate|].
      destruct (DescPlatform c); [|discriminate].
      intros H. apply IH in H. rewrite length_app in H. simpl in *. lia.
Qed.

Lemma probeChildren_partition_witness :
  length [linux_arm64] + length [linux_amd64]
  = length (@nil Platform) + length (@nil Platform)
    + length (filter (fun c => IsManifestType
                                 (indexEngine [amd64Manifest; arm64Manifest] arm64Missing)
                                 (MediaType c))
                     [amd64Manifest; arm64Manifest]).
Proof.
  exact (probeChildren_partition
           (indexEngine [amd64Manifest; arm64Manifest] arm64Missing)
           [amd64Manifest; arm64Manifest] [] [] [linux_arm64] [linux_amd64] eq_refl).
Defined.

Lemma probeChildren_first_error (eng : Engine) (pre post : list Descriptor)
    (c : Descriptor) (e : error) (missing present : list Platform) :
  (forall c', In c' pre -> IsManifestType eng (MediaType c') = true ->
              DescPlatform c' <> None /\ probed eng c') ->
  IsManifestType eng (MediaType c) = true ->
  ReaderAt eng c = Some e ->
  isNotFoundErr e = false ->
  probeChildren eng (pre ++ c :: post) missing present = Returned (Err e).
Proof.
  intros Hpre Hm Hr Hnf. revert missing present.
  induction pre as [|c' pre IH]; intros missing present; simpl.
  - rewrite Hm, Hr. simpl. now rewrite Hnf.
  - assert (Hrest : forall d, In d pre -> IsManifestType eng (MediaType d) = true ->
                              DescPlatform d <> None /\ probed eng d)
      by (intros d Hd; apply Hpre; now right).
    destruct (IsManifestType eng (MediaType c')) eqn:Hm'; [|now apply IH].
    destruct (Hpre c' (or_introl eq_refl) Hm') as [Hp [Hpr|Hpr]];
      rewrite Hpr; simpl;
      (destruct (DescPlatform c'); [now apply IH | congruence]).
Qed.

(** X24: a blob read that fails with an error other than a not-found
    ends [optForImageExport] with that error as it is: no instruction,
    no temporary image, the engine untouched, and the platform of that
    child is not read. *)
Theorem optForImageExport_blob_read_error
    (eng : Engine) (arch : Archiver) (name : string) (w : World) (img : Image)
    (ref : string) (pre post : list Descriptor) (c : Descriptor) (e : error) :
  resolveImage eng (images w) name None = (img, None) ->
  ParseNamed eng (Name img) = Ok ref ->
  IsIndexType eng (MediaType (Target img)) = true ->
  Children eng (Target img) = Ok (pre ++ c :: post) ->
  (forall c', In c' pre -> IsManifestType eng (MediaType c') = true ->
              DescPlatform c' <> None /\ probed eng c') ->
  IsManifestType eng (MediaType c) = true ->
  ReaderAt eng c = Some e ->
  isNotFoundErr e = false ->
  optForImageExport eng arch name w = (Returned (None, None, Some e), w).
Proof.
  intros Hres Hparse Hidx Hch Hpre Hm Hr Hnf.
  unfold optForImageExport. rewrite Hres, Hparse, Hidx, Hch.
  now rewrite (probeChildren_first_error eng pre post c e [] [] Hpre Hm Hr Hnf).
Qed.

Lemma optForImageExport_blob_read_error_witness :
  optForImageExport (indexEngine [barePlatformManifest] blobsUnreadable)
    memArchiver "foo:tag" (world0 [fooTag])
  = (Returned (None, None, Some (ErrNew "unavailable")), world0 [fooTag]).
Proof.
  refine (optForImageExport_blob_read_error
            (indexEngine [barePlatformManifest] blobsUnreadable)
            memArchiver "foo:tag" (world0 [fooTag]) fooTag "foo:tag"
            [] [] barePlatformManifest (ErrNew "unavailable")
            eq_refl eq_refl eq_refl eq_refl _ eq_refl eq_refl eq_refl).
  intros c' [].
Defined.

(** X25: when the conversion fails, [optForImageExport] returns the
    conversion's error as it is, without instruction, together with the
    image pointer the conversion came back with; the store is as
    before. *)
Theorem optForImageExport_convert_error
    (eng : Engine) (arch : Archiver) (name : string) (w : World) (img : Image)
    (srcRef : string) (children : list Descriptor) (partial : option Image) (e : error) :
  resolveImage eng (images w) name None = (img, None) ->
  ParseNamed eng (Name img) = Ok srcRef ->
  IsIndexType eng (MediaType (Target img)) = true ->
  Children eng (Target img) = Ok children ->
  (forall c, In c children -> IsManifestType eng (MediaType c) = true ->
             DescPlatform c <> None /\ probed eng c) ->
  (exists c, In c children /\ IsManifestType eng (MediaType c) = true
             /\ IsNotFound (ReaderAt eng c) = true) ->
  convert arch (images w)
    (srcRef ++ "-tmp-export" ++ NewString arch (drawn w))%string srcRef
    (presentOf eng children) = ConvFailed partial e ->
  fst (optForImageExport eng arch name w) = Returned (None, partial, Some e)
  /\ images (snd (optForImageExport eng arch name w)) = images w.
Proof.
  intros Hres Hparse Hidx Hch Hall [c [Hc [Hm Hnf]]] Hconv.
  unfold optForImageExport. rewrite Hres, Hparse, Hidx, Hch.
  rewrite (probeChildren_probed eng children [] [] Hall). simpl app.
  rewrite (missingOf_nonempty eng children c Hc Hm (proj1 (Hall c Hc Hm)) Hnf).
  unfold bind, uuidNewString, Convert. cbn [images drawn].
  rewrite Hconv. split; reflexivity.
Qed.

Lemma optForImageExport_convert_error_witness :
  fst (optForImageExport (indexEngine [amd64Manifest; arm64Manifest] arm64Missing)
         failingArchiver "foo:tag" (world0 [fooTag]))
  = Returned (None, None, Some convertFailed).
Proof.
  refine (proj1 (optForImageExport_convert_error
            (indexEngine [amd64Manifest; arm64Manifest] arm64Missing)
            failingArchiver "foo:tag" (world0 [fooTag]) fooTag "foo:tag"
            [amd64Manifest; arm64Manifest] None convertFailed
            eq_refl eq_refl eq_refl eq_refl _ _ eq_refl)).
  - intros c [<-|[<-|[]]] _.
    + split; [discriminate | now left].
    + split; [discriminate | now right].
  - exists arm64Manifest. split; [right; now left | split; reflexivity].
Defined.

(** ** Export: the archive write and the store *)

Section ExportRuns.
Variable eng : Engine.
Variable arch : Archiver.

Lemma optForImageExport_run (name : string) (w : World) :
  exists convs,
    events (snd (optForImageExport eng arch name w)) = events w ++ convs
    /\ Forall isConvert convs
    /\ match fst (optForImageExport eng arch name w) with
       | Returned (_, Some tmp, _) => tmpNames convs = [Name tmp]
       | Returned (_, None, _) => tmpNames convs = []
       | Panicked => tmpNames convs = []
       end
    /\ (forall img, In img (images (snd (optForImageExport eng arch name w))) ->
                    In img (images w) \/ In (Name img) (tmpNames convs))
    /\ (forall newOpt tmp,
          fst (optForImageExport eng arch name w) = Returned (newOpt, tmp, None) ->
          exists o, newOpt = Some o /\ isPlanOpt o).
Proof.
  assert (Hnil : forall (e : error),
             exists convs,
               events w = events w ++ convs /\ Forall isConvert convs
               /\ tmpNames convs = []
               /\ (forall img, In img (images w) ->
                               In img (images w) \/ In (Name img) (tmpNames convs))
               /\ (forall (newOpt : option ExportOpt) (tmp : option Image),
                     @Returned (option ExportOpt * option Image * option error)
                               (None, None, Some e) = Returned (newOpt, tmp, None) ->
                     exists o, newOpt = Some o /\ isPlanOpt o)).
  { intros e. exists []. rewrite app_nil_r. repeat split; auto. discriminate. }
  assert (Hby : forall n : string,
             exists convs,
               events w = events w ++ convs /\ Forall isConvert convs
               /\ tmpNames convs = []
               /\ (forall img, In img (images w) ->
                               In img (images w) \/ In (Name img) (tmpNames convs))
               /\ (forall (newOpt : option ExportOpt) (tmp : option Image),
                     @Returned (option ExportOpt * option Image * option error)
                               (Some (WithImage n), None, None)
                     = Returned (newOpt, tmp, None) ->
                     exists o, newOpt = Some o /\ isPlanOpt o)).
  { intros n. exists []. rewrite app_nil_r. repeat split; auto.
    intros newOpt tmp [= <- _]. eexists. split; [reflexivity|]. left. eauto. }
  unfold optForImageExport.
  destruct (resolveImage eng (images w) name None) as [img [e|]]; [apply Hnil|].
  destruct (ParseNamed eng (Name img)) as [ref|e]; [|apply Hnil].
  destruct (IsIndexType eng (MediaType (Target img))); [|apply Hby].
  destruct (Children eng (Target img)) as [children|e]; [|apply Hnil].
  destruct (probeChildren eng children [] []) as [[[missing present]|e]|];
    [|apply Hnil|].
  2:{ exists []. simpl. rewrite app_nil_r. repeat split; auto. discriminate. }
  destruct (length missing =? 0); [apply Hby|].
  unfold bind, uuidNewString, Convert. cbn [images drawn].
  destruct (convert arch _ _ _ _) as [target|partial e];
    cbn [fst snd events images logEvent setImages ret].
  - eexists. split; [reflexivity|]. split.
    { constructor; [|constructor]. unfold isConvert; eauto. }
    split; [reflexivity|]. split.
    + intros i [<-|Hi]; [right; simpl; auto|].
      left. unfold removeName in Hi. now apply filter_In in Hi.
    + intros newOpt tmp [= <- _]. eexists. split; [reflexivity|]. right. eauto.
  - eexists. split; [reflexivity|]. split.
    { constructor; [|constructor]. unfold isConvert; eauto. }
    split; [destruct partial; reflexivity|]. split; [auto | discriminate].
Qed.

Lemma exportBody_run (names : list string) :
  forall (opts : list ExportOpt) (deferred : list string) (w : World),
  exists convs,
    Forall isConvert convs
    /\ snd (fst (exportBody eng arch names opts deferred w))
       = rev (tmpNames convs) ++ deferred
    /\ (forall img, In img (images (snd (exportBody eng arch names opts deferred w))) ->
                    In img (images w) \/ In (Name img) (tmpNames convs))
    /\ ((events (snd (exportBody eng arch names opts deferred w)) = events w ++ convs
         /\ fst (fst (exportBody eng arch names opts deferred w)) <> Returned None)
        \/ exists planned,
             events (snd (exportBody eng arch names opts deferred w))
             = events w ++ convs ++ [EvExport (opts ++ planned)]
             /\ length planned = length names
             /\ Forall isPlanOpt planned
             /\ fst (fst (exportBody eng arch names opts deferred w))
                = Returned (exportErr arch
                              (images (snd (exportBody eng arch names opts deferred w)))
                              (opts ++ planned))).
Proof.
  induction names as [|imageRef rest IH]; intros opts deferred w.
  - exists []. simpl. split; [constructor|]. split; [reflexivity|]. split; [auto|].
    right. exists []. rewrite app_nil_r. auto.
  - simpl.
    destruct (optForImageExport_run imageRef w)
      as [convs [Hev [Hconv [Htmp [Himg Hopt]]]]].
    destruct (optForImageExport eng arch imageRef w) as [[[[newOpt tmpImage] err]|] w'];
      simpl in Hev, Htmp, Himg, Hopt.
    + set (deferred' := match tmpImage with
                        | Some tmp => Name tmp :: deferred
                        | None => deferred
                        end).
      assert (Hdef : deferred' = rev (tmpNames convs) ++ deferred)
        by (subst deferred'; destruct tmpImage; rewrite Htmp; reflexivity).
      destruct err as [e|].
      * exists convs. simpl. split; [assumption|]. split; [assumption|].
        split; [assumption|]. left. split; [assumption | discriminate].
      * destruct (Hopt newOpt tmpImage eq_refl) as [o [-> Hplan]].
        destruct (IH (opts ++ [o]) deferred' w')
          as [convs' [Hconv' [Hdef' [Himg' Hrun]]]].
        exists (convs ++ convs'). split; [now apply Forall_app|]. split.
        { rewrite Hdef', Hdef, tmpNames_app, rev_app_distr. now rewrite app_assoc. }
        split.
        { intros img Hi. rewrite tmpNames_app, in_app_iff.
          destruct (Himg' img Hi) as [Hi'|Hi']; [|auto].
          destruct (Himg img Hi'); auto. }
        destruct Hrun as [[Hev' Hout]|[planned [Hev' [Hlen [Hplanned Hout]]]]].
        -- left. split; [|assumption]. rewrite Hev', Hev. now rewrite <- app_assoc.
        -- right. exists (o :: planned). split.
           { rewrite Hev', Hev. rewrite <- !app_assoc. reflexivity. }
           split; [simpl; now f_equal|]. split; [now constructor|].
           rewrite Hout. rewrite <- !app_assoc. reflexivity.
    + exists convs. simpl. split; [assumption|].
      split; [now rewrite Htmp|]. split; [assumption|].
      left. split; [assumption | discriminate].
Qed.

End ExportRuns.

(** X26: [ExportImage] writes the archive at most once, after every
    requested name has been planned without error, with the two base
    options followed by one planned instruction per name; its result is
    then the result of the write.  Otherwise it writes nothing and does
    not return success.  Either way the deletions of the temporary
    images follow. *)
Theorem ExportImage_writes_after_plans
    (eng : Engine) (arch : Archiver) (names : list string) (w : World) :
  exists convs,
    Forall isConvert convs
    /\ ((events (snd (ExportImage eng arch names w))
         = events w ++ convs ++ map EvDelete (rev (tmpNames convs))
         /\ fst (ExportImage eng arch names w) <> Returned None)
        \/ exists planned st,
             events (snd (ExportImage eng arch names w))
             = events w ++ convs ++ [EvExport (baseOpts ++ planned)]
                 ++ map EvDelete (rev (tmpNames convs))
             /\ length planned = length names
             /\ Forall isPlanOpt planned
             /\ fst (ExportImage eng arch names w)
                = Returned (exportErr arch st (baseOpts ++ planned))
             /\ (forall img, In img st ->
                              In img (images w) \/ In (Name img) (tmpNames convs))).
Proof.
  unfold ExportImage.
  destruct (exportBody_run eng arch names baseOpts [] w)
    as [convs [Hconv [Hdef [Himg Hrun]]]].
  destruct (exportBody eng arch names baseOpts [] w) as [[o deferred] w'].
  simpl in Hdef, Himg, Hrun. rewrite app_nil_r in Hdef. subst deferred.
  exists convs. split; [assumption|]. simpl. rewrite runDeferred_events.
  destruct Hrun as [[Hev Hout]|[planned [Hev [Hlen [Hplanned Hout]]]]].
  - left. split; [|assumption]. rewrite Hev. now rewrite <- app_assoc.
  - right. exists planned, (images w'). split.
    + rewrite Hev. now rewrite <- !app_assoc.
    + repeat split; assumption.
Qed.

(** X27: when the engine carries out the deletions, [ExportImage] leaves
    no record in the store that was not there before the call, whatever
    its outcome: every temporary image it created is gone. *)
Theorem ExportImage_leaves_no_new_record
    (eng : Engine) (arch : Archiver) (names : list string) (w : World) :
  (forall st name, deleteErr arch st name = None) ->
  forall img, In img (images (snd (ExportImage eng arch names w))) ->
              In img (images w).
Proof.
  intros Hok img. unfold ExportImage.
  destruct (exportBody_run eng arch names baseOpts [] w)
    as [convs [_ [Hdef [Himg _]]]].
  destruct (exportBody eng arch names baseOpts [] w) as [[o deferred] w'].
  simpl in Hdef, Himg. rewrite app_nil_r in Hdef. subst deferred. simpl.
  intros Hin.
  apply runDeferred_images in Hin; [|intros st n _; apply Hok].
  destruct Hin as [Hin Hnot].
  destruct (Himg img Hin) as [H|H]; [assumption|].
  exfalso. apply Hnot. now apply in_rev in H.
Qed.

Lemma ExportImage_leaves_no_new_record_witness :
  Forall (fun img => In img (images (world0 [fooTag])))
         (images (snd (ExportImage
                         (indexEngine [amd64Manifest; arm64Manifest] arm64Missing)
                         memArchiver ["foo:tag"] (world0 [fooTag])))).
Proof.
  apply Forall_forall.
  apply (ExportImage_leaves_no_new_record
           (indexEngine [amd64Manifest; arm64Manifest] arm64Missing)
           memArchiver ["foo:tag"] (world0 [fooTag])).
  reflexivity.
Defined.

Lemma optForImageExport_by_name
    (eng : Engine) (arch : Archiver) (name : string) (w : World) :
  exportsByName eng (images w) name ->
  optForImageExport eng arch name w
  = (Returned (Some (byNameOpt eng (images w) name), None, None), w).
Proof.
  unfold exportsByName, byNameOpt, optForImageExport.
  destruct (resolveImage eng (images w) name None) as [img err]. simpl.
  intros [-> [Hall [Hplat [ref Hparse]]]]. rewrite Hparse.
  destruct (IsIndexType eng (MediaType (Target img))) eqn:Hidx; [|reflexivity].
  destruct (Hall Hidx) as [children [Hch Hpresent]]. rewrite Hch.
  destruct (probeChildren_all_present eng children [] [] Hpresent) as [Hp|[present' Hp]].
  - exfalso. apply (probeChildren_no_panic eng children [] []); [|assumption].
    exact (Hplat Hidx children Hch).
  - now rewrite Hp.
Qed.

Lemma exportBody_by_name
    (eng : Engine) (arch : Archiver) (pre rest : list string) (w : World) :
  (forall n, In n pre -> exportsByName eng (images w) n) ->
  forall (opts : list ExportOpt) (deferred : list string),
    exportBody eng arch (pre ++ rest) opts deferred w
    = exportBody eng arch rest (opts ++ map (byNameOpt eng (images w)) pre) deferred w.
Proof.
  induction pre as [|n pre IH]; intros Hpre opts deferred; simpl.
  - now rewrite app_nil_r.
  - rewrite (optForImageExport_by_name eng arch n w (Hpre n (or_introl eq_refl))).
    rewrite IH by (intros m Hm; apply Hpre; now right).
    now rewrite <- app_assoc.
Qed.

(** X28: when every requested name resolves to a record that is not an
    index, or to an index all of whose manifests are present,
    [ExportImage] makes one call, the archive write with the base
    options followed by export-by-name of each resolved record in the
    order of the request: no conversion, no deletion, the store
    untouched; its result is the result of the write. *)
Theorem ExportImage_all_by_name
    (eng : Engine) (arch : Archiver) (names : list string) (w : World) :
  (forall n, In n names -> exportsByName eng (images w) n) ->
  ExportImage eng arch names w
  = (Returned (exportErr arch (images w)
                 (baseOpts ++ map (byNameOpt eng (images w)) names)),
     mkWorld (images w)
             (events w ++ [EvExport (baseOpts ++ map (byNameOpt eng (images w)) names)])
             (drawn w)).
Proof.
  intros Hall. unfold ExportImage.
  rewrite <- (app_nil_r names) at 1.
  rewrite (exportBody_by_name eng arch names [] w Hall). reflexivity.
Qed.

Lemma ExportImage_all_by_name_witness :
  ExportImage (indexEngine [amd64Manifest; arm64Manifest] (fun _ => None))
    memArchiver ["foo:tag"] (world0 [fooTag])
  = (Returned None,
     mkWorld [fooTag] [EvExport (baseOpts ++ [WithImage "foo:tag"])] 0).
Proof.
  refine (ExportImage_all_by_name
            (indexEngine [amd64Manifest; arm64Manifest] (fun _ => None))
            memArchiver ["foo:tag"] (world0 [fooTag]) _).
  intros n [<-|[]]. split; [reflexivity|]. split; [|split].
  - intros _. exists [amd64Manifest; arm64Manifest]. split; reflexivity.
  - intros _ children [= <-] c [<-|[<-|[]]] _; discriminate.
  - exists "foo:tag". reflexivity.
Defined.

(** X29: when a requested name does not resolve, the names before it
    being exported by name, [ExportImage] returns the resolution error
    wrapped as "failed to resolve image" and has called nothing: no
    archive is written, whatever names follow. *)
Theorem ExportImage_unresolved_name
    (eng : Engine) (arch : Archiver) (pre post : list string) (n : string)
    (w : World) (img : Image) (e : error) :
  (forall m, In m pre -> exportsByName eng (images w) m) ->
  resolveImage eng (images w) n None = (img, Some e) ->
  ExportImage eng arch (pre ++ n :: post) w
  = (Returned (Some (ErrWrap "failed to resolve image" e)), w).
Proof.
  intros Hpre Hres. unfold ExportImage.
  rewrite (exportBody_by_name eng arch pre (n :: post) w Hpre). simpl.
  unfold optForImageExport. rewrite Hres. reflexivity.
Qed.

Lemma ExportImage_unresolved_name_witness :
  ExportImage plainEngine memArchiver ([] ++ "missing" :: ["base"]) (world0 [baseImage])
  = (Returned (Some (ErrWrap "failed to resolve image" (NotFound (ErrNew "id not found")))),
     world0 [baseImage]).
Proof.
  refine (ExportImage_unresolved_name plainEngine memArchiver [] ["base"] "missing"
            (world0 [baseImage]) emptyImage (NotFound (ErrNew "id not found")) _ eq_refl).
  intros m [].
Defined.
